(** * Listing scraper (src/app.py): role ranking and the collection pipeline

    A shallow embedding of [role_priority] and [pipeline] of src/app.py.

    Strings are byte strings: a Python [str] is represented by its UTF-8
    encoding, whose bytewise lexicographic order coincides with Python's
    code-point order.  [lower] folds the ASCII letters only; the role
    prefixes tested with [startswith] are pure ASCII, and no non-ASCII code
    point lower-cases to a string beginning with one of them.  [strip]
    works on the characters of the string (a lead byte and its continuation
    bytes) and removes those that [str.isspace] accepts.

    The Streamlit calls (side bar, messages, download button) are left out:
    the widgets' values enter [pipeline] as a [config]. *)

From Stdlib Require Import Lia ZArith NArith Ascii String.
From stdpp Require Import base strings list sorting gmap.

Open Scope string_scope.

(** ** Python strings *)

Module Py.

(** [str.lower], on the ASCII range. *)
Definition lower_ascii (c : ascii) : ascii :=
  let n := N_of_ascii c in
  if ((65 <=? n) && (n <=? 90))%N then ascii_of_N (n + 32) else c.

Fixpoint lower (s : string) : string :=
  match s with
  | EmptyString => EmptyString
  | String c s' => String (lower_ascii c) (lower s')
  end.

(** [s.startswith(p)], and [s.startswith(ps)] for a tuple of prefixes. *)
Definition startswith (s p : string) : bool := String.prefix p s.

Definition startswith_any (s : string) (ps : list string) : bool :=
  existsb (startswith s) ps.

(** The characters of a [str]: each is a lead byte followed by its
    continuation bytes (10xxxxxx). *)
Definition is_continuation (c : ascii) : bool :=
  let n := N_of_ascii c in ((128 <=? n) && (n <=? 191))%N.

Fixpoint chars (s : string) : list string :=
  match s with
  | EmptyString => []
  | String c s' =>
      match chars s' with
      | String c' ch :: rest =>
          if is_continuation c' then String c (String c' ch) :: rest
          else String c EmptyString :: String c' ch :: rest
      | rest => String c EmptyString :: rest
      end
  end.

(** The code point of a character. *)
Fixpoint continuation_bits (acc : N) (s : string) : N :=
  match s with
  | EmptyString => acc
  | String c s' => continuation_bits (acc * 64 + N_of_ascii c mod 64)%N s'
  end.

Definition code_point (ch : string) : N :=
  match ch with
  | EmptyString => 0%N
  | String c rest =>
      let n := N_of_ascii c in
      let lead := (if n <? 128 then n
                   else if n <? 224 then n mod 32
                   else if n <? 240 then n mod 16
                   else n mod 8)%N in
      continuation_bits lead rest
  end.

(** [str.isspace] on one code point: U+0009-000D, U+001C-0020, U+0085,
    U+00A0, U+1680, U+2000-200A, U+2028, U+2029, U+202F, U+205F, U+3000. *)
Definition is_space_code (n : N) : bool :=
  (((9 <=? n) && (n <=? 13)) || ((28 <=? n) && (n <=? 32))
   || (n =? 133) || (n =? 160) || (n =? 5760)
   || ((8192 <=? n) && (n <=? 8202))
   || (n =? 8232) || (n =? 8233) || (n =? 8239) || (n =? 8287)
   || (n =? 12288))%N.

Definition is_space (ch : string) : bool := is_space_code (code_point ch).

(** [str.strip()]: the white space characters at both ends are removed. *)
Fixpoint lstrip_chars (l : list string) : list string :=
  match l with
  | [] => []
  | ch :: l' => if is_space ch then lstrip_chars l' else l
  end.

Definition lstrip (s : string) : string :=
  foldr String.append EmptyString (lstrip_chars (chars s)).

Definition rstrip (s : string) : string :=
  foldr String.append EmptyString (reverse (lstrip_chars (reverse (chars s)))).

Definition strip (s : string) : string := rstrip (lstrip s).

(** [sep.join(l)]. *)
Fixpoint join (sep : string) (l : list string) : string :=
  match l with
  | [] => ""
  | [x] => x
  | x :: l' => x +:+ sep +:+ join sep l'
  end.

(** Truthiness of a [str]: the empty string is falsy. *)
Definition nonempty (s : string) : bool :=
  match s with EmptyString => false | _ => true end.

(** [a < b] on [bool] ([False < True]) and on the 2-tuples used as sort
    keys: the first differing component decides. *)
Definition bool_lt (a b : bool) : bool := negb a && b.

Definition tuple_lt (k1 k2 : bool * string) : bool :=
  if Bool.eqb k1.1 k2.1 then String.ltb k1.2 k2.2 else bool_lt k1.1 k2.1.

(** [sorted(l, key=key)]: a stable sort that compares keys with [<] only.
    [insort] puts [x] in front of the first element whose key is not
    smaller, so that equal keys keep their original order. *)
Section Sorted.
Context {A K : Type} (lt : K → K → bool) (key : A → K).

Fixpoint insort (x : A) (l : list A) : list A :=
    match l with
    | [] => [x]
    | y :: l' => if lt (key y) (key x) then y :: insort x l' else x :: y :: l'
    end.

Definition sorted (l : list A) : list A := foldr insort [] l.
End Sorted.

(** [list(dict.fromkeys(l))]: the distinct elements of [l] in order of
    first occurrence. *)
Fixpoint fromkeys_from (seen : list string) (l : list string) : list string :=
  match l with
  | [] => []
  | x :: l' =>
      if bool_decide (x ∈ seen) then fromkeys_from seen l'
      else x :: fromkeys_from (x :: seen) l'
  end.

Definition dict_fromkeys (l : list string) : list string := fromkeys_from [] l.

End Py.

(** ** [role_priority] (app.py, lines 34-38) *)

(** The tuple [roles] of line 37. *)
Definition roles : list string :=
  ["info@"; "contact@"; "sales@"; "admin@"; "support@"; "help@"].

(** [e.lower().startswith(roles)]. *)
Definition is_role (e : string) : bool := Py.startswith_any (Py.lower e) roles.

(** The key of line 38: [(not e.lower().startswith(roles), e)]. *)
Definition sort_key (e : string) : bool * string := (negb (is_role e), e).

(** [key_le e1 e2]: the comparison of line 38 does not put [e2] before
    [e1], that is, [key(e2) < key(e1)] is false. *)
Definition key_le (e1 e2 : string) : Prop :=
  Py.tuple_lt (sort_key e2) (sort_key e1) = false.

(** [set(emails)] is a [gset]; its iteration order is the one of [elements].
    CPython's own order is unspecified: [sorted_enumeration_irrelevant] below
    shows that the result does not depend on it. *)
Definition role_priority (emails : list string) : list string :=
  match emails with
  | [] => []
  | _ => Py.sorted Py.tuple_lt sort_key (elements (list_to_set emails : gset string))
  end.

(** ** Values, exceptions and awaited calls *)

(** A DataFrame cell as the pipeline meets it: a [str], [None], or the
    float [nan] that pandas puts where a source record lacks the column. *)
Inductive pyval :=
| VStr (s : string)
| VNone
| VNaN.

(** [bool(v)]: [nan] is a non-zero float, hence truthy. *)
Definition truthy (v : pyval) : bool :=
  match v with
  | VStr s => Py.nonempty s
  | VNone => false
  | VNaN => true
  end.

(** [str(v)]. *)
Definition py_str (v : pyval) : string :=
  match v with
  | VStr s => s
  | VNone => "None"
  | VNaN => "nan"
  end.

(** [v or ""]. *)
Definition or_empty (v : pyval) : pyval := if truthy v then v else VStr "".

(** [except Exception] catches [Exception] and its subclasses; what derives
    from [BaseException] only (a cancellation, a keyboard interrupt) passes
    through it. *)
Inductive exn :=
| Exception (msg : string)
| BaseException (msg : string).

Inductive result (A : Type) :=
| Ok (a : A)
| Raise (e : exn).
Arguments Ok {A} a.
Arguments Raise {A} e.

(** The calls that leave the process, in the order they were made (most
    recent first). *)
Inductive event :=
| EvListing (industry sido : string) (sggu : option string)
| EvSample
| EvSearch (q : string)
| EvCrawl (url : pyval) (max_pages : Z).

(** A row of [df] after the column clean-up of lines 52-66: the columns
    회사명, 주소, 홈페이지, 이메일 and 비고 all exist. *)
Record row := {
  company_name : pyval;   (* 회사명 *)
  address : pyval;        (* 주소 *)
  homepage : pyval;       (* 홈페이지 *)
  email : pyval;          (* 이메일 *)
  notes : pyval           (* 비고 *)
}.

(** A row of [out]: 지역, 업종, 회사명, 주소, 이메일, 홈페이지, 수집일시. *)
Record out_row := {
  out_region : string;
  out_industry : string;
  out_company_name : pyval;
  out_address : pyval;
  out_email : pyval;
  out_homepage : pyval;
  out_collected_at : string
}.

(** The side bar of lines 25-32. *)
Record config := {
  sido : string;
  sggu : string;
  industry : string;
  only_role : bool;
  limit : Z
}.

(** The functions imported from [utils] and [connectors], the sample file
    and the clock.  Each may answer differently from one call to the next:
    the first argument is the number of outside calls made so far. *)
Record collaborators := {
  fetch_hira_facilities : nat → string → option string → result (list row);
  fetch_localdata_business : nat → string → option string → result (list row);
  read_sample_seed : nat → result (list row);
  find_homepage_via_bing : nat → string → result pyval;
  crawl_site_for_emails : nat → pyval → Z → result (list string);
  extract_emails_from_text : string → result (list string);
  datetime_now : nat → string
}.

(** Computations of [pipeline]: the history of outside calls is threaded
    through, and an exception ends the computation. *)
Definition M (A : Type) : Type := list event → result A * list event.

Definition ret {A} (a : A) : M A := λ tr, (Ok a, tr).

Definition bind {A B} (m : M A) (k : A → M B) : M B :=
  λ tr, match m tr with
        | (Ok a, tr') => k a tr'
        | (Raise e, tr') => (Raise e, tr')
        end.

#[global] Instance M_ret : MRet M := @ret.
#[global] Instance M_bind : MBind M := λ A B k m, bind m k.

(** A call of a collaborator: it is recorded whether it returns or raises. *)
Definition call {A} (ev : event) (f : nat → result A) : M A :=
  λ tr, (f (length tr), ev :: tr).

(** A call that does not leave the process. *)
Definition lift {A} (r : result A) : M A := λ tr, (r, tr).

(** [try: m except Exception: handler]. *)
Definition try_except {A} (m handler : M A) : M A :=
  λ tr, match m tr with
        | (Raise (Exception _), tr') => handler tr'
        | r => r
        end.

(** A [for] loop that appends one value per element. *)
Fixpoint for_each {A B} (body : A → M B) (l : list A) : M (list B) :=
  match l with
  | [] => ret []
  | x :: l' => y ← body x; ys ← for_each body l'; ret (y :: ys)
  end.

(** ** DataFrame operations *)

(** [df.head(n)]: the first [n] rows, or all but the last [-n] when [n] is
    negative. *)
Definition head {A} (n : Z) (df : list A) : list A :=
  if (0 <=? n)%Z then take (Z.to_nat n) df
  else take (length df - Z.to_nat (- n)) df.

(** [df.loc[:len(vals)-1, col] = vals] when the column can hold the values,
    where [set] writes column [col]; the rows past [len(vals)] keep their
    cell. *)
Fixpoint loc_assign {A V} (set : A → V → A) (df : list A) (vals : list V) : list A :=
  match df, vals with
  | r :: df', v :: vals' => set r v :: loc_assign set df' vals'
  | _, _ => df
  end.

(** The dtype of a column: a column that holds nothing but [nan] is a
    [float64] column; one with a [str] or a [None] in it is not. *)
Definition is_nan (v : pyval) : bool :=
  match v with VNaN => true | _ => false end.

Definition is_str (v : pyval) : bool :=
  match v with VStr _ => true | _ => false end.

Definition is_float64 (cells : list pyval) : bool :=
  match cells with
  | [] => false
  | _ => forallb is_nan cells
  end.

(** The write-back of lines 78 and 98, [get] reading and [set] writing the
    column: pandas refuses to put a [str] into a [float64] column and raises
    [TypeError]. *)
Definition loc_write {A} (get : A → pyval) (set : A → pyval → A)
    (df : list A) (vals : list pyval) : result (list A) :=
  if is_float64 (get <$> df) && existsb is_str vals
  then Raise (Exception "TypeError: Invalid value for dtype 'float64'")
  else Ok (loc_assign set df vals).

Definition set_homepage (r : row) (v : pyval) : row :=
  {| company_name := company_name r; address := address r; homepage := v;
     email := email r; notes := notes r |}.

Definition set_email (r : row) (v : pyval) : row :=
  {| company_name := company_name r; address := address r;
     homepage := homepage r; email := v; notes := notes r |}.

(** Both write-backs are possible on [rows]: neither the 홈페이지 nor the
    이메일 column is a [float64] column. *)
Definition writable (rows : list row) : Prop :=
  is_float64 (homepage <$> rows) = false ∧ is_float64 (email <$> rows) = false.

(** ** [pipeline] (app.py, lines 40-105) *)

(** The stripped 홈페이지 cell of line 73. *)
Definition existing_homepage (r : row) : string :=
  Py.strip (py_str (or_empty (homepage r))).

(** The query of line 75. *)
Definition search_query (cfg : config) (r : row) : string :=
  let name := Py.strip (py_str (company_name r)) in
  Py.strip (name +:+ " 공식 홈페이지 " +:+ sido cfg +:+ " " +:+ sggu cfg).

(** Lines 71-77, the body of the first loop; the value is the one appended
    to [homepages]. *)
Definition resolve_homepage (c : collaborators) (cfg : config) (r : row) : M pyval :=
  let hp := existing_homepage r in
  if negb (Py.nonempty hp) then
    let q := search_query cfg r in
    hp ← call (EvSearch q) (λ t, find_homepage_via_bing c t q);
    ret (or_empty hp)
  else ret (or_empty (VStr hp)).

(** Lines 83-93: the crawl of the home page and the fall-back to the 비고
    text; the value is [emails] before line 95. *)
Definition gather_emails (c : collaborators) (r : row) : M (list string) :=
  let hp := homepage r in
  emails ← (if truthy hp then
               try_except
                 (call (EvCrawl hp 5) (λ t, crawl_site_for_emails c t hp 5))
                 (ret [])
             else ret []);
  let text_blob := py_str (or_empty (notes r)) in
  if match emails with [] => true | _ => false end && Py.nonempty text_blob
  then lift (extract_emails_from_text c text_blob)
  else ret emails.

(** The prefixes of line 96 and the comprehension that uses them. *)
Definition role_filter_prefixes : list string :=
  ["info@"; "contact@"; "sales@"; "admin@"; "support@"].

Definition role_only (emails : list string) : list string :=
  List.filter (λ e, existsb (Py.startswith (Py.lower e)) role_filter_prefixes) emails.

(** Lines 83-96: [emails] as line 97 finds it. *)
Definition final_emails (c : collaborators) (cfg : config) (r : row) : M (list string) :=
  emails ← gather_emails c r;
  ret (if only_role cfg then role_only emails else emails).

(** Lines 83-97, the body of the second loop; the value is the one appended
    to [emails_col]. *)
Definition emails_entry (c : collaborators) (cfg : config) (r : row) : M string :=
  emails ← final_emails c cfg r;
  ret (Py.join ", " (Py.dict_fromkeys emails)).

(** [f"{sido} {sggu}".strip()] of line 102. *)
Definition region_label (cfg : config) : string :=
  Py.strip (sido cfg +:+ " " +:+ sggu cfg).

(** Lines 101-104 for one row. *)
Definition to_out (cfg : config) (stamp : string) (r : row) : out_row :=
  {| out_region := region_label cfg;
     out_industry := industry cfg;
     out_company_name := company_name r;
     out_address := address r;
     out_email := email r;
     out_homepage := homepage r;
     out_collected_at := stamp |}.

(** [sggu or None]. *)
Definition sggu_or_none (cfg : config) : option string :=
  if Py.nonempty (sggu cfg) then Some (sggu cfg) else None.

(** Lines 43-50: the listing source, and the sample file when it gives
    nothing. *)
Definition fetch_rows (c : collaborators) (cfg : config) : M (list row) :=
  rows ← call (EvListing (industry cfg) (sido cfg) (sggu_or_none cfg))
            (λ t, if String.eqb (industry cfg) "의료기관"
                  then fetch_hira_facilities c t (sido cfg) (sggu_or_none cfg)
                  else fetch_localdata_business c t (sido cfg) (sggu_or_none cfg));
  match rows with
  | [] => call EvSample (read_sample_seed c)
  | _ => ret rows
  end.

Definition pipeline (c : collaborators) (cfg : config) : M (list out_row) :=
  df ← fetch_rows c cfg;
  homepages ← for_each (resolve_homepage c cfg) (head (limit cfg) df);
  df ← lift (loc_write homepage set_homepage df homepages);
  emails_col ← for_each (emails_entry c cfg) (head (limit cfg) df);
  df ← lift (loc_write email set_email df (VStr <$> emails_col));
  let stamp : M string := λ tr, (Ok (datetime_now c (length tr)), tr) in
  now ← stamp;
  ret (to_out cfg now <$> df).

(** ** The column clean-up (app.py, lines 52-66) *)

(** [df] as line 52 builds it: the column labels, and for every row the
    cells that hold a value.  A cell of a column that the record lacks is
    [nan]. *)
Record frame := {
  columns : gset string;
  records : list (gmap string pyval)
}.

(** [pd.DataFrame(rows)] for a list of dicts: the columns are the keys that
    occur in some record. *)
Definition DataFrame (rows : list (gmap string pyval)) : frame :=
  {| columns := ⋃ (dom <$> rows); records := rows |}.

Definition cell (r : gmap string pyval) (col : string) : pyval :=
  default VNaN (r !! col).

(** [df[col]]: the column as a list. *)
Definition column (col : string) (df : frame) : list pyval :=
  (λ r, cell r col) <$> records df.

(** [df.rename(columns={old: new})]; a label that is no column is ignored.
    The clean-up renames only to a label that [df] does not have yet. *)
Definition rename_key (old new : string) (r : gmap string pyval) : gmap string pyval :=
  match r !! old with
  | Some v => <[new:=v]> (delete old r)
  | None => r
  end.

Definition rename (old new : string) (df : frame) : frame :=
  if bool_decide (old ∈ columns df)
  then {| columns := {[new]} ∪ (columns df ∖ {[old]});
          records := rename_key old new <$> records df |}
  else df.

(** [df[col] = v] for a scalar [v]. *)
Definition assign_column (col : string) (v : pyval) (df : frame) : frame :=
  {| columns := {[col]} ∪ columns df; records := <[col:=v]> <$> records df |}.

(** Lines 54-57: [if new not in df.columns and old in df.columns: rename]. *)
Definition rename_if_missing (new old : string) (df : frame) : frame :=
  if bool_decide (new ∉ columns df) && bool_decide (old ∈ columns df)
  then rename old new df else df.

(** Lines 60-61 and 65-66: [if col not in df.columns: df[col] = ""]. *)
Definition ensure_column (df : frame) (col : string) : frame :=
  if bool_decide (col ∉ columns df) then assign_column col (VStr "") df else df.

(** Lines 54-66. *)
Definition clean_columns (df : frame) : frame :=
  let df := rename_if_missing "회사명" "yadmNm" df in
  let df := rename_if_missing "주소" "addr" df in
  let df := ensure_column df "비고" in
  foldl ensure_column df ["회사명"; "주소"; "홈페이지"; "이메일"].

(** The columns that the loops read. *)
Definition base_columns : list string := ["회사명"; "주소"; "홈페이지"; "이메일"; "비고"].

(** The row that [iterrows] hands to the loops; every [row.get(col, "")]
    finds its column. *)
Definition to_row (r : gmap string pyval) : row :=
  {| company_name := cell r "회사명"; address := cell r "주소";
     homepage := cell r "홈페이지"; email := cell r "이메일";
     notes := cell r "비고" |}.

(** Every cell of a frame belongs to one of its columns, as in a frame
    built by [DataFrame]. *)
Definition frame_wf (df : frame) : Prop :=
  Forall (λ r, dom r ⊆ columns df) (records df).

(** ** Counting the outside calls *)

Definition is_search (ev : event) : bool :=
  match ev with EvSearch _ => true | _ => false end.

Definition is_crawl (ev : event) : bool :=
  match ev with EvCrawl _ _ => true | _ => false end.

Definition count_calls (f : event → bool) (tr : list event) : nat :=
  length (List.filter f tr).

(** [calls_at_most f k m]: however [m] ends, it adds at most [k] calls of
    kind [f] to the history and removes none. *)
Definition calls_at_most {A} (f : event → bool) (k : nat) (m : M A) : Prop :=
  ∀ tr res tr', m tr = (res, tr') →
    ∃ new, tr' = (new ++ tr)%list ∧ (count_calls f new ≤ k)%nat.

(** The listing source that line 43 selects, called at time [t]. *)
Definition listed (c : collaborators) (cfg : config) (t : nat) : result (list row) :=
  if String.eqb (industry cfg) "의료기관"
  then fetch_hira_facilities c t (sido cfg) (sggu_or_none cfg)
  else fetch_localdata_business c t (sido cfg) (sggu_or_none cfg).

(** ** The specification's wording, for comparison with the code *)

Module Spec.

(** Section 4.2, tie-break (b): the key built on the lower-cased address. *)
Definition rank_key (e : string) : bool * string := (negb (is_role e), Py.lower e).

Definition rank_le (e1 e2 : string) : Prop :=
  Py.tuple_lt (rank_key e2) (rank_key e1) = false.

(** Section 8: the case-insensitive de-duplication of a collection, the
    casing of the first occurrence winning. *)
Fixpoint dedup_ci_from (seen : list string) (l : list string) : list string :=
  match l with
  | [] => []
  | x :: l' =>
      if bool_decide (Py.lower x ∈ seen) then dedup_ci_from seen l'
      else x :: dedup_ci_from (Py.lower x :: seen) l'
  end.

Definition dedup_ci (l : list string) : list string := dedup_ci_from [] l.

(** Section 4.5, step 4: the filter on the whole RoleSet. *)
Definition role_only (emails : list string) : list string :=
  List.filter is_role emails.






End Spec.

(** ** Concrete batches, used by the examples below *)

Module Demo.

Definition listing (name hp nt : string) : row :=
  {| company_name := VStr name; address := VStr "서울특별시 강남구";
     homepage := VStr hp; email := VStr ""; notes := VStr nt |}.

(** Collaborators that answer the same at every call. *)
Definition world (rows : list row) (search : result pyval)
    (crawl extract : result (list string)) : collaborators :=
  {| fetch_hira_facilities := λ _ _ _, Ok rows;
     fetch_localdata_business := λ _ _ _, Ok rows;
     read_sample_seed := λ _, Ok rows;
     find_homepage_via_bing := λ _ _, search;
     crawl_site_for_emails := λ _ _ _, crawl;
     extract_emails_from_text := λ _, extract;
     datetime_now := λ _, "2024-05-01 09:30:00" |}.

(** The side bar as it starts: role-only ticked, limit at 200. *)
Definition settings (role : bool) (lim : Z) : config :=
  {| sido := "서울특별시"; sggu := "강남구"; industry := "의료기관";
     only_role := role; limit := lim |}.

Definition cfg : config := settings true 200.

Definition acme : row := listing "Acme" "https://acme.example/" "".

(** Nothing is found anywhere. *)
Definition quiet : collaborators := world [] (Ok VNone) (Ok []) (Ok []).

(** The crawl of the one listed site finds two role addresses, [sales@]
    first. *)
Definition two_roles : collaborators :=
  world [acme] (Ok VNone) (Ok ["sales@acme.example"; "info@acme.example"]) (Ok []).

(** The crawl finds a personal address before a role address. *)
Definition personal_first : collaborators :=
  world [acme] (Ok VNone) (Ok ["zoe@acme.example"; "info@acme.example"]) (Ok []).

(** The listing source returns 51 records. *)
Definition fifty_one : collaborators :=
  world (repeat acme 51) (Ok VNone) (Ok ["info@acme.example"]) (Ok []).

(** The crawl finds a [help@] address. *)
Definition help_desk : collaborators :=
  world [acme] (Ok VNone) (Ok ["help@acme.example"]) (Ok []).

(** One record without a home page, and a search service that fails. *)
Definition search_down : collaborators :=
  world [listing "Acme" "" ""] (Raise (Exception "search: connection refused"))
    (Ok []) (Ok []).

(** One record with a malformed home page, one without; the search finds
    the second. *)
Definition two_listings : list row :=
  [listing "Acme" " no site " ""; listing "Beta" "" ""].

Definition beta_found : collaborators :=
  world two_listings (Ok (VStr "https://beta.example/")) (Ok []) (Ok []).

(** The crawl finds a personal address only; the notes hold a role address. *)
Definition jane : row :=
  listing "Acme" "https://acme.example/" "문의: info@acme.example".

Definition jane_only : collaborators :=
  world [jane] (Ok VNone) (Ok ["jane.doe@acme.example"]) (Ok ["info@acme.example"]).

(** A record without a home page whose notes hold an address. *)
Definition biz : row := listing "Biz" "" "문의: contact@biz.kr".

Definition notes_only : collaborators :=
  world [biz] (Ok VNone) (Ok []) (Ok ["contact@biz.kr"]).

Definition extract_down : collaborators :=
  world [biz] (Ok VNone) (Ok []) (Raise (Exception "extract: bad input")).

(** The crawl fails; the notes hold an address. *)
Definition crawl_down : collaborators :=
  world [jane] (Ok VNone) (Raise (Exception "crawl: timeout")) (Ok ["info@acme.example"]).

(** The crawl is cancelled. *)
Definition cancelled : collaborators :=
  world [acme] (Ok VNone) (Raise (BaseException "CancelledError")) (Ok []).

(** The crawl finds the same address twice. *)
Definition repeated : collaborators :=
  world [acme] (Ok VNone)
    (Ok ["info@acme.example"; "zoe@acme.example"; "info@acme.example"]) (Ok []).

(** Two records of the medical source, keyed [yadmNm] and [addr]; only the
    first has a 홈페이지 key. *)
Definition hira_records : list (gmap string pyval) :=
  [ {[ "yadmNm" := VStr "Acme 의원"; "addr" := VStr "서울특별시 강남구";
       "홈페이지" := VStr "https://acme.example/" ]};
    {[ "yadmNm" := VStr "Beta 의원"; "addr" := VStr "서울특별시 서초구" ]} ].

(** U+3000 (ideographic space) and U+00A0 (no-break space), in UTF-8. *)
Definition ideographic_space : string :=
  String (ascii_of_N 227) (String (ascii_of_N 128) (String (ascii_of_N 128) EmptyString)).

Definition no_break_space : string :=
  String (ascii_of_N 194) (String (ascii_of_N 160) EmptyString).

(** A clock that moves with every outside call, and a batch of two
    records: the first is crawled, the second searched and then crawled. *)
Definition clock (t : nat) : string :=
  "2024-05-01 09:30:0" +:+ String (ascii_of_nat (48 + t)) EmptyString.

Definition ticking : collaborators :=
  {| fetch_hira_facilities := λ _ _ _, Ok two_listings;
     fetch_localdata_business := λ _ _ _, Ok two_listings;
     read_sample_seed := λ _, Ok two_listings;
     find_homepage_via_bing := λ _ _, Ok (VStr "https://beta.example/");
     crawl_site_for_emails := λ _ _ _, Ok ["info@beta.example"];
     extract_emails_from_text := λ _, Ok [];
     datetime_now := clock |}.

(** Two records read from a file whose 홈페이지 column is empty: both cells
    are [nan]. *)
Definition no_homepages : list row :=
  [ {| company_name := VStr "Acme"; address := VStr "서울특별시 강남구";
       homepage := VNaN; email := VStr ""; notes := VStr "" |};
    {| company_name := VStr "Beta"; address := VStr "서울특별시 서초구";
       homepage := VNaN; email := VStr ""; notes := VStr "" |} ].

Definition nan_column : collaborators :=
  world no_homepages (Ok VNone) (Ok []) (Ok []).

(** Two records of the licence source without a 홈페이지 key. *)
Definition plain_records : list (gmap string pyval) :=
  [ {[ "회사명" := VStr "Acme"; "주소" := VStr "서울특별시 강남구" ]};
    {[ "회사명" := VStr "Beta"; "주소" := VStr "서울특별시 서초구" ]} ].

End Demo.

(** * Properties *)

(** ** The order of line 38 *)

Section KeyOrder.

Lemma ltb_false_le (s1 s2 : string) : String.ltb s2 s1 = false ↔ String.le s1 s2.
Proof.
  unfold String.le, String.ltb, String.leb.
  rewrite (String.compare_antisym s1 s2).
  destruct (String.compare s2 s1); simpl; split; intros; done.
Qed.

(** What the comparison amounts to: a role address is never after a
    non-role one, and within a class the addresses are in string order. *)
Lemma key_le_spec (e1 e2 : string) :
  key_le e1 e2 ↔
  (is_role e2 = true → is_role e1 = true) ∧ (is_role e1 = is_role e2 → String.le e1 e2).
Proof.
  unfold key_le, Py.tuple_lt, sort_key, Py.bool_lt; simpl.
  rewrite <- ltb_false_le.
  destruct (is_role e1), (is_role e2); simpl; intuition congruence.
Qed.

#[global] Instance key_le_dec : RelDecision key_le.
Proof. intros e1 e2. unfold key_le. apply _. Defined.

#[global] Instance key_le_total : Total key_le.
Proof.
  intros e1 e2. rewrite !key_le_spec.
  destruct (total String.le e1 e2), (is_role e1), (is_role e2); intuition congruence.
Qed.

#[global] Instance key_le_trans : Transitive key_le.
Proof.
  intros e1 e2 e3. rewrite !key_le_spec. intros [H1 H2] [H3 H4]. split.
  - tauto.
  - intros E. destruct (is_role e1) eqn:R1, (is_role e2) eqn:R2, (is_role e3) eqn:R3;
      try discriminate; try (etrans; [apply H2|apply H4]; reflexivity);
      exfalso; intuition congruence.
Qed.

#[global] Instance key_le_antisym : AntiSymm (=) key_le.
Proof.
  intros e1 e2. rewrite !key_le_spec. intros [H1 H2] [H3 H4].
  assert (E : is_role e1 = is_role e2)
    by (destruct (is_role e1), (is_role e2); intuition congruence).
  apply (anti_symm String.le); auto.
Qed.

End KeyOrder.

(** ** [sorted] *)

Section SortedFacts.
Context {A K : Type} (lt : K → K → bool) (key : A → K).

(** [x] may stand before [y]. *)
Let before (x y : A) : Prop := lt (key y) (key x) = false.

Hypothesis before_total : ∀ x y, before x y ∨ before y x.

Lemma insort_Permutation (x : A) (l : list A) : Py.insort lt key x l ≡ₚ x :: l.
Proof.
  induction l as [|y l IH]; simpl; [done|].
  destruct (lt (key y) (key x)); [|done].
  rewrite IH. apply Permutation_swap.
Qed.

Lemma sorted_Permutation (l : list A) : Py.sorted lt key l ≡ₚ l.
Proof.
  induction l as [|x l IH]; simpl; [done|].
  rewrite insort_Permutation. by f_equiv.
Qed.

Lemma insort_HdRel (a x : A) (l : list A) :
  before a x → HdRel before a l → HdRel before a (Py.insort lt key x l).
Proof.
  intros Hax Hl. destruct l as [|y l]; simpl; [by constructor|].
  destruct (lt (key y) (key x)); constructor; [by inversion Hl|done].
Qed.

Lemma insort_Sorted (x : A) (l : list A) :
  Sorted before l → Sorted before (Py.insort lt key x l).
Proof.
  induction 1 as [|y l Hl IH Hy]; simpl; [by repeat constructor|].
  destruct (lt (key y) (key x)) eqn:E.
  - constructor; [done|]. apply insort_HdRel; [|done].
    destruct (before_total y x) as [?|Hxy]; [done|].
    unfold before in Hxy. congruence.
  - repeat constructor; done.
Qed.

Lemma sorted_Sorted (l : list A) : Sorted before (Py.sorted lt key l).
Proof.
  induction l as [|x l IH]; simpl; [constructor|by apply insort_Sorted].
Qed.

End SortedFacts.

(** ** [role_priority] *)

Example role_priority_two_roles :
  role_priority ["sales@acme.example"; "info@acme.example"]
  = ["info@acme.example"; "sales@acme.example"].
Proof. by vm_compute. Qed.

Example role_priority_empty : role_priority [] = [].
Proof. reflexivity. Qed.

Lemma role_priority_Sorted (l : list string) : Sorted key_le (role_priority l).
Proof.
  destruct l as [|x l]; [constructor|].
  apply (sorted_Sorted Py.tuple_lt sort_key). intros a b. apply (total key_le).
Qed.

Lemma role_priority_Permutation (l : list string) :
  role_priority l ≡ₚ elements (list_to_set l : gset string).
Proof.
  destruct l as [|x l]; simpl.
  - by rewrite elements_empty.
  - apply sorted_Permutation.
Qed.

Lemma role_priority_elem_of (l : list string) (e : string) :
  e ∈ role_priority l ↔ e ∈ l.
Proof. rewrite role_priority_Permutation. set_solver. Qed.

Lemma role_priority_NoDup (l : list string) : NoDup (role_priority l).
Proof. rewrite role_priority_Permutation. apply NoDup_elements. Qed.

(** Whatever order the set is iterated in, sorting gives the same list:
    the key contains the address itself, so no two members tie. *)
Lemma sorted_enumeration_irrelevant (s l : list string) :
  NoDup s → (∀ e, e ∈ s ↔ e ∈ l) →
  Py.sorted Py.tuple_lt sort_key s = role_priority l.
Proof.
  intros Hs Hsl. apply (Sorted_unique key_le).
  - apply (sorted_Sorted Py.tuple_lt sort_key). intros a b. apply (total key_le).
  - apply role_priority_Sorted.
  - rewrite sorted_Permutation. apply NoDup_Permutation; [done|apply role_priority_NoDup|].
    intros e. by rewrite Hsl, role_priority_elem_of.
Qed.

Lemma role_priority_same_members (l1 l2 : list string) :
  (∀ e, e ∈ l1 ↔ e ∈ l2) → role_priority l1 = role_priority l2.
Proof.
  intros H. apply (Sorted_unique key_le); try apply role_priority_Sorted.
  apply NoDup_Permutation; try apply role_priority_NoDup.
  intros e. by rewrite !role_priority_elem_of.
Qed.

Lemma StronglySorted_weaken {A} (R R' : relation A) (l : list A) :
  (∀ x y, R x y → R' x y) → StronglySorted R l → StronglySorted R' l.
Proof.
  intros HR. induction 1 as [|x l Hl IH Hx]; constructor; [done|].
  eapply Forall_impl; [exact Hx|]. auto.
Qed.

(** C5, as amended: [role_priority] puts every role address (prefix tested
    on the lower-cased address) before every other address, and within each
    of the two classes the addresses stand in the code-point order of the
    strings as written, not of their lower-cased forms. *)
Theorem role_priority_order (l : list string) :
  StronglySorted
    (λ e1 e2, (is_role e2 = true → is_role e1 = true)
              ∧ (is_role e1 = is_role e2 → String.le e1 e2))
    (role_priority l).
Proof.
  apply (StronglySorted_weaken key_le).
  - intros e1 e2. by rewrite key_le_spec.
  - apply Sorted_StronglySorted; [apply _|apply role_priority_Sorted].
Qed.

(** C5, as stated, fails: the tie-break compares the addresses as written.
    [B@x.com] comes out before [a@x.com], against the order of the
    lower-cased addresses, and two casings of one address do not compare
    equal. *)
Lemma role_priority_tiebreak_case_sensitive :
  role_priority ["a@x.com"; "B@x.com"] = ["B@x.com"; "a@x.com"]
  ∧ ¬ Sorted Spec.rank_le (role_priority ["a@x.com"; "B@x.com"])
  ∧ Py.tuple_lt (sort_key "Info@x.com") (sort_key "info@x.com") = true.
Proof.
  assert (E : role_priority ["a@x.com"; "B@x.com"] = ["B@x.com"; "a@x.com"])
    by by vm_compute.
  split; [exact E|]. split; [|by vm_compute].
  rewrite E. intros H. apply Sorted_inv in H as [_ Hd]. apply HdRel_inv in Hd.
  vm_compute in Hd. discriminate.
Qed.

(** C6, as amended: [role_priority] removes exact duplicates only.  Its
    output has no repeated string, has the members of the input, and is as
    long as the input has distinct strings; two casings of one address are
    two entries. *)
Theorem role_priority_dedup_exact (l : list string) :
  NoDup (role_priority l)
  ∧ (∀ e, e ∈ role_priority l ↔ e ∈ l)
  ∧ length (role_priority l) = size (list_to_set l : gset string).
Proof.
  split; [apply role_priority_NoDup|]. split; [apply role_priority_elem_of|].
  by rewrite role_priority_Permutation.
Qed.

(** C6, as stated, fails: two casings of one address both survive, where
    the case-insensitive de-duplication keeps one. *)
Lemma role_priority_keeps_both_casings :
  role_priority ["Info@acme.example"; "info@acme.example"]
    = ["Info@acme.example"; "info@acme.example"]
  ∧ Spec.dedup_ci ["Info@acme.example"; "info@acme.example"] = ["Info@acme.example"]
  ∧ length (role_priority ["Info@acme.example"; "info@acme.example"])
    ≠ length (Spec.dedup_ci ["Info@acme.example"; "info@acme.example"]).
Proof. split; [by vm_compute|]. split; by vm_compute. Qed.

(** C9: [role_priority] gives the same sequence for any two lists with the
    same members, hence for a list and any permutation of it, and with any
    number of repetitions. *)
Theorem role_priority_order_irrelevant (l1 l2 : list string) :
  (∀ e, e ∈ l1 ↔ e ∈ l2) → role_priority l1 = role_priority l2.
Proof. apply role_priority_same_members. Qed.

Lemma role_priority_order_irrelevant_witness :
  (∀ e, e ∈ ["sales@acme.example"; "info@acme.example"; "sales@acme.example"]
        ↔ e ∈ ["info@acme.example"; "sales@acme.example"])
  ∧ role_priority ["sales@acme.example"; "info@acme.example"; "sales@acme.example"]
    = role_priority ["info@acme.example"; "sales@acme.example"].
Proof.
  assert (H : ∀ e, e ∈ ["sales@acme.example"; "info@acme.example"; "sales@acme.example"]
                   ↔ e ∈ ["info@acme.example"; "sales@acme.example"]).
  { intros e. rewrite !elem_of_cons. tauto. }
  split; [exact H|]. exact (role_priority_order_irrelevant _ _ H).
Defined.

Lemma role_priority_Permutation_invariant (l1 l2 : list string) :
  l1 ≡ₚ l2 → role_priority l1 = role_priority l2.
Proof. intros H. apply role_priority_same_members. intros e. by rewrite H. Qed.

(** ** The computations of [pipeline] *)

Lemma bind_Ok {A B} (m : M A) (k : A → M B) tr b tr' :
  bind m k tr = (Ok b, tr') ↔ ∃ a tr1, m tr = (Ok a, tr1) ∧ k a tr1 = (Ok b, tr').
Proof.
  unfold bind. destruct (m tr) as [[a|e] tr1]; split.
  - eauto.
  - by intros (a' & tr2 & [= -> ->] & ?).
  - done.
  - by intros (a' & tr2 & [=] & ?).
Qed.

Lemma ret_Ok {A} (a b : A) tr tr' : ret a tr = (Ok b, tr') ↔ a = b ∧ tr = tr'.
Proof. unfold ret. split; [by intros [= -> ->]|by intros [-> ->]]. Qed.

(** A write-back that returns has written with [loc_assign]. *)
Lemma loc_write_Ok {A} (get : A → pyval) (set : A → pyval → A) df vals tr df' tr' :
  lift (loc_write get set df vals) tr = (Ok df', tr') ↔
  is_float64 (get <$> df) && existsb is_str vals = false
  ∧ df' = loc_assign set df vals ∧ tr' = tr.
Proof.
  unfold lift, loc_write. destruct (_ && _); split.
  - intros [=].
  - by intros ([=] & _).
  - by intros [= <- <-].
  - by intros (_ & -> & ->).
Qed.

Ltac run_ok :=
  unfold mbind, M_bind in *;
  repeat match goal with
    | H : bind _ _ _ = (Ok _, _) |- _ =>
        apply bind_Ok in H; destruct H as (? & ? & ? & H)
    | H : ret _ _ = (Ok _, _) |- _ => apply ret_Ok in H; destruct H; subst
    | H : lift (loc_write _ _ _ _) _ = (Ok _, _) |- _ =>
        apply loc_write_Ok in H; destruct H as (? & ? & ?); subst
    end.

Section Loops.
Context {A B : Type} (body : A → M B).

Lemma for_each_Forall2 (P : A → B → Prop) (l : list A) tr ys tr' :
  (∀ x tr1 y tr2, body x tr1 = (Ok y, tr2) → P x y) →
  for_each body l tr = (Ok ys, tr') → Forall2 P l ys.
Proof.
  intros HP. revert tr ys. induction l as [|x l IH]; simpl; intros tr ys H; run_ok.
  - constructor.
  - constructor; eauto.
Qed.

Lemma for_each_length (l : list A) tr ys tr' :
  for_each body l tr = (Ok ys, tr') → length ys = length l.
Proof.
  intros H. symmetry. eapply Forall2_length, (for_each_Forall2 (λ _ _, True)); eauto.
Qed.

(** An exception in the body, at any element, ends the loop with it. *)
Lemma for_each_raises (l1 l2 : list A) (x : A) tr ys tr1 e tr2 :
  for_each body l1 tr = (Ok ys, tr1) →
  body x tr1 = (Raise e, tr2) →
  for_each body (l1 ++ x :: l2) tr = (Raise e, tr2).
Proof.
  revert tr ys. induction l1 as [|a l1 IH]; simpl; intros tr ys H Hx; run_ok.
  - unfold bind. by rewrite Hx.
  - unfold bind at 1. rewrite H0.
    unfold bind at 1. by erewrite IH.
Qed.

End Loops.

Lemma loc_assign_length {A V} (set : A → V → A) (df : list A) (vals : list V) :
  length (loc_assign set df vals) = length df.
Proof.
  revert vals. induction df as [|r df IH]; intros [|v vals]; simpl; auto.
Qed.

(** The table that [pipeline] returns has one row per row of [df], that is,
    per record of the listing source (or of the sample file). *)
Lemma pipeline_row_count c cfg tr out tr' :
  pipeline c cfg tr = (Ok out, tr') →
  ∃ df tr1, fetch_rows c cfg tr = (Ok df, tr1) ∧ length out = length df.
Proof.
  unfold pipeline. intros H. run_ok. eexists _, _. split; [eassumption|].
  by rewrite length_fmap, !loc_assign_length.
Qed.

(** ** Step 1: the home page *)

Lemma nonempty_false (s : string) : Py.nonempty s = false ↔ s = "".
Proof. by destruct s. Qed.

Lemma resolve_homepage_Ok c cfg r tr hp tr' :
  resolve_homepage c cfg r tr = (Ok hp, tr') →
  if Py.nonempty (existing_homepage r)
  then hp = VStr (existing_homepage r) ∧ tr' = tr
  else (∃ v, find_homepage_via_bing c (length tr) (search_query cfg r) = Ok v
             ∧ hp = or_empty v)
       ∧ tr' = EvSearch (search_query cfg r) :: tr.
Proof.
  unfold resolve_homepage. destruct (Py.nonempty (existing_homepage r)) eqn:E; simpl; intros H.
  - run_ok. unfold or_empty. simpl. by rewrite E.
  - run_ok. unfold call in H0. injection H0 as H0 <-. eauto.
Qed.

(** The search collaborator is not guarded: when it raises, so does the
    body of the first loop. *)
Lemma resolve_homepage_raises c cfg r tr e :
  existing_homepage r = "" →
  find_homepage_via_bing c (length tr) (search_query cfg r) = Raise e →
  resolve_homepage c cfg r tr = (Raise e, EvSearch (search_query cfg r) :: tr).
Proof.
  intros E H. unfold resolve_homepage. rewrite E. simpl.
  unfold mbind, M_bind, bind, call. by rewrite H.
Qed.

Lemma resolve_trace c cfg rows tr hps tr' :
  for_each (resolve_homepage c cfg) rows tr = (Ok hps, tr') →
  tr' = (reverse (EvSearch ∘ search_query cfg
                    <$> filter (λ r, existing_homepage r = "") rows) ++ tr)%list.
Proof.
  revert tr hps. induction rows as [|r rows IH]; simpl; intros tr hps H; run_ok; [done|].
  apply resolve_homepage_Ok in H0. apply IH in H1. subst tr'.
  destruct (Py.nonempty (existing_homepage r)) eqn:E.
  - destruct H0 as [_ ->]. rewrite filter_cons_False; [done|].
    intros E'. by rewrite E' in E.
  - destruct H0 as [_ ->]. apply nonempty_false in E.
    rewrite filter_cons_True by done. simpl.
    by rewrite reverse_cons, <- app_assoc.
Qed.




(** [strip] removes every character that [str.isspace] accepts, so a cell
    that holds only an ideographic space is empty and the record is
    searched. *)
Example strip_unicode_space :
  Py.strip (Demo.ideographic_space +:+ " Acme 의원 " +:+ Demo.no_break_space)
  = "Acme 의원".
Proof. by vm_compute. Qed.

Example resolve_homepage_blank_cell :
  resolve_homepage Demo.beta_found Demo.cfg
      (Demo.listing "Acme" Demo.ideographic_space "") []
    = (Ok (VStr "https://beta.example/"),
       [EvSearch "Acme 공식 홈페이지 서울특별시 강남구"]).
Proof. by vm_compute. Qed.

(** A record without the column has [nan] in the cell, which is truthy:
    the home page becomes the string [nan]. *)
Example resolve_homepage_nan :
  resolve_homepage Demo.quiet Demo.cfg
      {| company_name := VStr "Acme"; address := VStr ""; homepage := VNaN;
         email := VStr ""; notes := VStr "" |} []
    = (Ok (VStr "nan"), []).
Proof. by vm_compute. Qed.

(** ** Steps 2 to 4: the addresses *)

(** X7: the crawl is guarded: an [Exception] from it leaves [emails] empty
    and the record goes on to the notes. *)
Lemma gather_emails_crawl_caught c r tr msg :
  truthy (homepage r) = true →
  crawl_site_for_emails c (length tr) (homepage r) 5 = Raise (Exception msg) →
  gather_emails c r tr
  = (if Py.nonempty (py_str (or_empty (notes r)))
     then extract_emails_from_text c (py_str (or_empty (notes r)))
     else Ok [],
     EvCrawl (homepage r) 5 :: tr).
Proof.
  intros Hhp Hc. unfold gather_emails. rewrite Hhp.
  unfold mbind, M_bind, bind, try_except, call. rewrite Hc. simpl.
  by destruct (Py.nonempty _).
Qed.

(** C8: with the role-only box ticked, a record whose gathered addresses
    are all removed by the filter ends with no address: [emails] is empty,
    the cell written is the empty string, and nothing is called after the
    filter. *)
Theorem role_only_filter_is_strict c cfg r tr es tr' :
  only_role cfg = true →
  gather_emails c r tr = (Ok es, tr') →
  es ≠ [] →
  role_only es = [] →
  final_emails c cfg r tr = (Ok [], tr') ∧ emails_entry c cfg r tr = (Ok "", tr').
Proof.
  intros Hrole Hg _ Hf.
  assert (H : final_emails c cfg r tr = (Ok [], tr')).
  { unfold final_emails, mbind, M_bind, bind. by rewrite Hg, Hrole, Hf. }
  split; [done|].
  unfold emails_entry, mbind, M_bind, bind. by rewrite H.
Qed.

Lemma role_only_filter_is_strict_witness :
  only_role Demo.cfg = true
  ∧ gather_emails Demo.jane_only Demo.jane []
    = (Ok ["jane.doe@acme.example"], [EvCrawl (VStr "https://acme.example/") 5])
  ∧ ["jane.doe@acme.example"] ≠ []
  ∧ role_only ["jane.doe@acme.example"] = []
  ∧ final_emails Demo.jane_only Demo.cfg Demo.jane []
    = (Ok [], [EvCrawl (VStr "https://acme.example/") 5])
  ∧ emails_entry Demo.jane_only Demo.cfg Demo.jane []
    = (Ok "", [EvCrawl (VStr "https://acme.example/") 5]).
Proof.
  assert (H1 : only_role Demo.cfg = true) by reflexivity.
  assert (H2 : gather_emails Demo.jane_only Demo.jane []
               = (Ok ["jane.doe@acme.example"], [EvCrawl (VStr "https://acme.example/") 5]))
    by (vm_compute; reflexivity).
  assert (H3 : ["jane.doe@acme.example"] ≠ []) by discriminate.
  assert (H4 : role_only ["jane.doe@acme.example"] = []) by (vm_compute; reflexivity).
  repeat (split; [assumption|]).
  exact (role_only_filter_is_strict Demo.jane_only Demo.cfg Demo.jane [] _ _ H1 H2 H3 H4).
Defined.

(** The same record through the whole pipeline: the 이메일 cell is empty. *)
Example pipeline_jane_only :
  ∃ out tr, pipeline Demo.jane_only Demo.cfg [] = (Ok out, tr)
            ∧ out_email <$> out = [VStr ""].
Proof. eexists _, _. split; [vm_compute; reflexivity|reflexivity]. Qed.

(** C3: the filter of line 96 drops an address that begins with [help@],
    which the prefixes of [role_priority] and the RoleSet of the
    specification recognise. *)
Theorem role_only_drops_help :
  is_role "help@acme.example" = true
  ∧ Spec.role_only ["help@acme.example"] = ["help@acme.example"]
  ∧ role_only ["help@acme.example"] = []
  ∧ ∃ out tr, pipeline Demo.help_desk Demo.cfg [] = (Ok out, tr)
              ∧ out_email <$> out = [VStr ""].
Proof.
  repeat (split; [by vm_compute|]).
  eexists _, _. split; [vm_compute; reflexivity|reflexivity].
Qed.

(** Apart from [help@], the filter tests the prefixes of [roles]. *)
Lemma is_role_filter_or_help (e : string) :
  is_role e
  = existsb (Py.startswith (Py.lower e)) role_filter_prefixes
    || Py.startswith (Py.lower e) "help@".
Proof.
  unfold is_role, Py.startswith_any, roles, role_filter_prefixes. simpl.
  destruct (Py.startswith (Py.lower e) "info@"),
    (Py.startswith (Py.lower e) "contact@"),
    (Py.startswith (Py.lower e) "sales@"),
    (Py.startswith (Py.lower e) "admin@"),
    (Py.startswith (Py.lower e) "support@"),
    (Py.startswith (Py.lower e) "help@"); reflexivity.
Qed.

(** C1: the addresses written to the record are those of the crawl in the
    order the crawl gave them; [role_priority] is not applied.  Two role
    addresses stay in crawl order, and with the box unticked a personal
    address stays before a role address. *)
Theorem pipeline_emails_not_ranked :
  (∃ out tr, pipeline Demo.two_roles Demo.cfg [] = (Ok out, tr)
             ∧ out_email <$> out = [VStr "sales@acme.example, info@acme.example"])
  ∧ role_priority ["sales@acme.example"; "info@acme.example"]
    = ["info@acme.example"; "sales@acme.example"]
  ∧ (∃ out tr, pipeline Demo.personal_first (Demo.settings false 200) [] = (Ok out, tr)
               ∧ out_email <$> out = [VStr "zoe@acme.example, info@acme.example"])
  ∧ role_priority ["zoe@acme.example"; "info@acme.example"]
    = ["info@acme.example"; "zoe@acme.example"].
Proof.
  split; [eexists _, _; split; [vm_compute; reflexivity|reflexivity]|].
  split; [by vm_compute|].
  split; [eexists _, _; split; [vm_compute; reflexivity|reflexivity]|].
  by vm_compute.
Qed.

(** ** The batch *)

(** C4: the search call of line 76 is not guarded.  When it raises for a
    record, [pipeline] ends with that exception and returns no table. *)
Theorem search_failure_aborts_pipeline :
  pipeline Demo.search_down Demo.cfg []
  = (Raise (Exception "search: connection refused"),
     [EvSearch "Acme 공식 홈페이지 서울특별시 강남구";
      EvListing "의료기관" "서울특별시" (Some "강남구")]).
Proof. vm_compute. reflexivity. Qed.

(** Neither is the text extraction of line 93. *)
Example extract_failure_aborts_pipeline :
  (pipeline Demo.extract_down Demo.cfg []).1 = Raise (Exception "extract: bad input").
Proof. by vm_compute. Qed.

(** A record without a home page: one search, no crawl, and the address of
    the notes. *)
Example pipeline_notes_only :
  ∃ out, pipeline Demo.notes_only Demo.cfg []
         = (Ok out, [EvSearch "Biz 공식 홈페이지 서울특별시 강남구";
                     EvListing "의료기관" "서울특별시" (Some "강남구")])
         ∧ out_email <$> out = [VStr "contact@biz.kr"]
         ∧ out_homepage <$> out = [VStr ""].
Proof. eexists. split; [vm_compute; reflexivity|]. split; reflexivity. Qed.

(** C2: the limit bounds the rows that are looked at, not the rows of the
    table.  With 51 records and a limit of 50 the table has 51 rows, the
    last of them with the cells it came with. *)
Theorem pipeline_rows_exceed_limit :
  ∃ out tr, pipeline Demo.fifty_one (Demo.settings true 50) [] = (Ok out, tr)
            ∧ length out = 51%nat
            ∧ (50 < Z.of_nat (length out))%Z
            ∧ out_email <$> out
              = (repeat (VStr "info@acme.example") 50 ++ [VStr ""])%list.
Proof.
  eexists _, _. split; [vm_compute; reflexivity|].
  split; [reflexivity|]. split; [reflexivity|]. by vm_compute.
Qed.

(** C10: every row of the table carries the same 수집일시, the one reading
    of the clock made after the last outside call of the run. *)
Theorem pipeline_single_timestamp c cfg tr out tr' :
  pipeline c cfg tr = (Ok out, tr') →
  Forall (λ o, out_collected_at o = datetime_now c (length tr')) out.
Proof.
  unfold pipeline. intros H. run_ok.
  match goal with E : (Ok _, _) = (Ok _, _) |- _ => injection E as <- <- end.
  apply Forall_fmap, Forall_true. done.
Qed.

Lemma pipeline_single_timestamp_witness :
  ∃ out tr, pipeline Demo.ticking Demo.cfg [] = (Ok out, tr)
            ∧ out_collected_at <$> out
              = ["2024-05-01 09:30:04"; "2024-05-01 09:30:04"]
            ∧ datetime_now Demo.ticking 0 = "2024-05-01 09:30:00"
            ∧ length tr = 4%nat
            ∧ Forall (λ o, out_collected_at o = datetime_now Demo.ticking (length tr)) out.
Proof.
  destruct (pipeline Demo.ticking Demo.cfg []) as [[out|e] tr] eqn:H.
  - exists out, tr. split; [reflexivity|].
    assert (Hrun : pipeline Demo.ticking Demo.cfg [] = (Ok out, tr)) by exact H.
    vm_compute in H. injection H as <- <-.
    split; [reflexivity|]. split; [reflexivity|]. split; [reflexivity|].
    exact (pipeline_single_timestamp _ _ _ _ _ Hrun).
  - vm_compute in H. discriminate.
Defined.

(** * Further properties *)

(** ** [role_priority], continued *)

(** X1: ranking a ranked list changes nothing. *)
Theorem role_priority_idempotent (l : list string) :
  role_priority (role_priority l) = role_priority l.
Proof.
  apply role_priority_same_members. intros e. apply role_priority_elem_of.
Qed.

(** X2: as soon as the input holds a role address, the first address of the
    output is a role address. *)
Theorem role_priority_head_is_role (l : list string) (e : string) :
  e ∈ l → is_role e = true →
  ∃ e0 rest, role_priority l = e0 :: rest ∧ is_role e0 = true.
Proof.
  intros Hin Hrole. apply role_priority_elem_of in Hin.
  pose proof (Sorted_StronglySorted _ _ (role_priority_Sorted l)) as Hs.
  destruct (role_priority l) as [|e0 rest]; [by apply elem_of_nil in Hin|].
  exists e0, rest. split; [done|].
  apply elem_of_cons in Hin as [<-|Hin]; [done|].
  apply StronglySorted_inv in Hs as [_ Hall].
  rewrite Forall_forall in Hall. apply Hall in Hin.
  apply key_le_spec in Hin. tauto.
Qed.

Lemma role_priority_head_is_role_witness :
  "info@acme.example" ∈ ["zoe@acme.example"; "info@acme.example"]
  ∧ is_role "info@acme.example" = true
  ∧ ∃ e0 rest, role_priority ["zoe@acme.example"; "info@acme.example"] = e0 :: rest
               ∧ is_role e0 = true.
Proof.
  assert (H1 : "info@acme.example" ∈ ["zoe@acme.example"; "info@acme.example"])
    by (apply elem_of_cons; right; apply elem_of_cons; by left).
  assert (H2 : is_role "info@acme.example" = true) by reflexivity.
  split; [exact H1|]. split; [exact H2|].
  exact (role_priority_head_is_role _ _ H1 H2).
Defined.

Lemma StronglySorted_filter {A} (R : relation A) (f : A → bool) (l : list A) :
  StronglySorted R l → StronglySorted R (List.filter f l).
Proof.
  induction 1 as [|x l Hl IH Hx]; simpl; [constructor|].
  destruct (f x); [|done]. constructor; [done|].
  rewrite Forall_forall in Hx |- *. intros y Hy.
  apply list_elem_of_In, List.filter_In in Hy as [Hy _].
  by apply Hx, list_elem_of_In.
Qed.

Lemma elem_of_bool_filter {A} (f : A → bool) (l : list A) (x : A) :
  x ∈ List.filter f l ↔ x ∈ l ∧ f x = true.
Proof. rewrite !list_elem_of_In. apply List.filter_In. Qed.

Lemma NoDup_bool_filter {A} (f : A → bool) (l : list A) :
  NoDup l → NoDup (List.filter f l).
Proof. rewrite !NoDup_ListNoDup. apply List.NoDup_filter. Qed.

(** X3: ranking commutes with any filter on the addresses, in particular
    with the role-only filter of line 96: filtering the ranked list and
    ranking the filtered list give the same sequence. *)
Theorem role_priority_filter_commute (f : string → bool) (l : list string) :
  List.filter f (role_priority l) = role_priority (List.filter f l).
Proof.
  apply (Sorted_unique key_le).
  - apply StronglySorted_Sorted, StronglySorted_filter.
    apply Sorted_StronglySorted; [apply _|apply role_priority_Sorted].
  - apply role_priority_Sorted.
  - apply NoDup_Permutation.
    + apply NoDup_bool_filter, role_priority_NoDup.
    + apply role_priority_NoDup.
    + intros e. by rewrite elem_of_bool_filter, !role_priority_elem_of, elem_of_bool_filter.
Qed.

(** ** The 이메일 cell (line 97) *)

Lemma fromkeys_from_elem_of (seen l : list string) (e : string) :
  e ∈ Py.fromkeys_from seen l ↔ e ∈ l ∧ e ∉ seen.
Proof.
  revert seen. induction l as [|x l IH]; intros seen; simpl.
  - rewrite elem_of_nil. tauto.
  - case_bool_decide as Hx; [|rewrite elem_of_cons]; rewrite IH, !elem_of_cons.
    + split; [tauto|]. intros [[->|?] ?]; tauto.
    + destruct (decide (e = x)) as [->|Hne]; [tauto|].
      split.
      * intros [?|[? Hn]]; [done|]. split; [tauto|]. intros ?. apply Hn. by right.
      * intros [[?|?] Hn]; [done|]. right. split; [done|]. tauto.
Qed.

Lemma fromkeys_from_NoDup (seen l : list string) : NoDup (Py.fromkeys_from seen l).
Proof.
  revert seen. induction l as [|x l IH]; intros seen; simpl; [constructor|].
  case_bool_decide; [done|]. constructor; [|done].
  rewrite fromkeys_from_elem_of. intros [_ Hn]. apply Hn. by left.
Qed.

Lemma fromkeys_from_sublist (seen l : list string) : sublist (Py.fromkeys_from seen l) l.
Proof.
  revert seen. induction l as [|x l IH]; intros seen; simpl; [done|].
  case_bool_decide; [by apply sublist_cons|by apply sublist_skip].
Qed.

Lemma fromkeys_from_id (seen l : list string) :
  NoDup l → (∀ e, e ∈ l → e ∉ seen) → Py.fromkeys_from seen l = l.
Proof.
  revert seen. induction l as [|x l IH]; intros seen Hnd Hseen; simpl; [done|].
  apply NoDup_cons in Hnd as [Hx Hnd].
  rewrite bool_decide_eq_false_2 by (apply Hseen; by left).
  f_equal. apply IH; [done|].
  intros e He [->|?]%elem_of_cons; [done|]. eapply Hseen; [|done]. by right.
Qed.

Lemma final_emails_Ok c cfg r tr es tr' :
  final_emails c cfg r tr = (Ok es, tr') ↔
  ∃ gs, gather_emails c r tr = (Ok gs, tr')
        ∧ es = if only_role cfg then role_only gs else gs.
Proof.
  unfold final_emails, mbind, M_bind. rewrite bind_Ok. split.
  - intros (gs & tr1 & Hg & [<- <-]%ret_Ok). eauto.
  - intros (gs & Hg & ->). exists gs, tr'. by rewrite ret_Ok.
Qed.

Lemma emails_entry_Ok c cfg r tr cell tr' :
  emails_entry c cfg r tr = (Ok cell, tr') ↔
  ∃ es, final_emails c cfg r tr = (Ok es, tr')
        ∧ cell = Py.join ", " (Py.dict_fromkeys es).
Proof.
  unfold emails_entry, mbind, M_bind. rewrite bind_Ok. split.
  - intros (es & tr1 & Hf & [<- <-]%ret_Ok). eauto.
  - intros (es & Hf & ->). exists es, tr'. by rewrite ret_Ok.
Qed.

(** An address of the result stands where it first occurs in [l]: what
    [l] holds before that occurrence was seen already or stands before it
    in the result. *)
Lemma fromkeys_from_first (seen l d1 d2 : list string) (a : string) :
  Py.fromkeys_from seen l = (d1 ++ a :: d2)%list →
  ∃ l1 l2, l = (l1 ++ a :: l2)%list ∧ (a ∉ l1) ∧ (a ∉ seen)
           ∧ ∀ e, e ∈ l1 → e ∈ seen ∨ e ∈ d1.
Proof.
  revert seen d1. induction l as [|x l IH]; intros seen d1; simpl.
  - by destruct d1.
  - case_bool_decide as Hx.
    + intros (l1 & l2 & -> & Ha & Hs & Hl)%IH.
      exists (x :: l1), l2. split; [done|]. split; [|split; [done|]].
      * intros [->|?]%elem_of_cons; done.
      * intros e [->|?]%elem_of_cons; auto.
    + destruct d1 as [|y d1]; simpl; intros [= <- H].
      * exists [], l. split; [done|]. split; [apply not_elem_of_nil|].
        split; [done|]. intros e []%elem_of_nil.
      * apply IH in H as (l1 & l2 & -> & Ha & Hs & Hl).
        exists (x :: l1), l2. split; [done|].
        split; [|split].
        -- intros [->|?]%elem_of_cons; [|done]. apply Hs. by left.
        -- intros ?. apply Hs. by right.
        -- intros e [->|He]%elem_of_cons; [right; by left|].
           destruct (Hl e He) as [[->|?]%elem_of_cons|?];
             [right; by left|by left|right; by right].
Qed.

(** X4: the 이메일 cell of a processed record is the join of the addresses
    of [emails], each once, in the order of their first occurrence: an
    address [a] of the cell stands after exactly those that [emails] holds
    before its first [a].  A list without repetition is joined as it
    is. *)
Theorem emails_entry_distinct c cfg r tr cell tr' :
  emails_entry c cfg r tr = (Ok cell, tr') →
  ∃ es ds, final_emails c cfg r tr = (Ok es, tr')
           ∧ cell = Py.join ", " ds
           ∧ NoDup ds
           ∧ (∀ e, e ∈ ds ↔ e ∈ es)
           ∧ sublist ds es
           ∧ (NoDup es → ds = es)
           ∧ (∀ d1 a d2, ds = (d1 ++ a :: d2)%list →
                ∃ l1 l2, es = (l1 ++ a :: l2)%list ∧ (a ∉ l1)
                         ∧ ∀ e, e ∈ l1 → e ∈ d1).
Proof.
  intros (es & Hf & ->)%emails_entry_Ok.
  exists es, (Py.dict_fromkeys es). unfold Py.dict_fromkeys.
  split; [done|]. split; [done|]. split; [apply fromkeys_from_NoDup|].
  split; [|split; [apply fromkeys_from_sublist|split]].
  - intros e. rewrite fromkeys_from_elem_of. split; [tauto|].
    intros ?. split; [done|]. apply not_elem_of_nil.
  - intros Hnd. apply fromkeys_from_id; [done|]. intros e _. apply not_elem_of_nil.
  - intros d1 a d2 (l1 & l2 & -> & Ha & _ & Hl)%fromkeys_from_first.
    exists l1, l2. split; [done|]. split; [done|].
    intros e He. destruct (Hl e He) as [[]%elem_of_nil|?]; done.
Qed.

Lemma emails_entry_distinct_witness :
  emails_entry Demo.repeated (Demo.settings false 200) Demo.acme []
    = (Ok "info@acme.example, zoe@acme.example",
       [EvCrawl (VStr "https://acme.example/") 5])
  ∧ ∃ es ds, final_emails Demo.repeated (Demo.settings false 200) Demo.acme []
               = (Ok es, [EvCrawl (VStr "https://acme.example/") 5])
             ∧ "info@acme.example, zoe@acme.example" = Py.join ", " ds
             ∧ NoDup ds
             ∧ (∀ e, e ∈ ds ↔ e ∈ es)
             ∧ sublist ds es
             ∧ (NoDup es → ds = es)
             ∧ (∀ d1 a d2, ds = (d1 ++ a :: d2)%list →
                  ∃ l1 l2, es = (l1 ++ a :: l2)%list ∧ (a ∉ l1)
                           ∧ ∀ e, e ∈ l1 → e ∈ d1).
Proof.
  assert (H : emails_entry Demo.repeated (Demo.settings false 200) Demo.acme []
              = (Ok "info@acme.example, zoe@acme.example",
                 [EvCrawl (VStr "https://acme.example/") 5]))
    by (vm_compute; reflexivity).
  split; [exact H|]. exact (emails_entry_distinct _ _ _ _ _ _ H).
Defined.

Lemma role_only_is_role (es : list string) : Forall (λ e, is_role e = true) (role_only es).
Proof.
  apply Forall_forall. intros e [_ He]%elem_of_bool_filter.
  rewrite is_role_filter_or_help. by rewrite He.
Qed.

Lemma bool_filter_sublist {A} (f : A → bool) (l : list A) : sublist (List.filter f l) l.
Proof.
  induction l as [|x l IH]; simpl; [done|].
  destruct (f x); [by apply sublist_skip|by apply sublist_cons].
Qed.

(** X5: the addresses kept for a record are gathered addresses in their
    gathered order; with the role-only box ticked each of them is a role
    address, and with the box unticked nothing is removed. *)
Theorem final_emails_selection c cfg r tr es tr' :
  final_emails c cfg r tr = (Ok es, tr') →
  ∃ gs, gather_emails c r tr = (Ok gs, tr')
        ∧ sublist es gs
        ∧ (only_role cfg = true → Forall (λ e, is_role e = true) es)
        ∧ (only_role cfg = false → es = gs).
Proof.
  intros (gs & Hg & ->)%final_emails_Ok. exists gs. split; [done|].
  destruct (only_role cfg).
  - split; [apply bool_filter_sublist|]. split; [|done].
    intros _. apply role_only_is_role.
  - split; [done|]. by split.
Qed.

Lemma final_emails_selection_witness :
  final_emails Demo.personal_first Demo.cfg Demo.acme []
    = (Ok ["info@acme.example"], [EvCrawl (VStr "https://acme.example/") 5])
  ∧ ∃ gs, gather_emails Demo.personal_first Demo.acme []
            = (Ok gs, [EvCrawl (VStr "https://acme.example/") 5])
          ∧ sublist ["info@acme.example"] gs
          ∧ (only_role Demo.cfg = true → Forall (λ e, is_role e = true) ["info@acme.example"])
          ∧ (only_role Demo.cfg = false → ["info@acme.example"] = gs).
Proof.
  assert (H : final_emails Demo.personal_first Demo.cfg Demo.acme []
              = (Ok ["info@acme.example"], [EvCrawl (VStr "https://acme.example/") 5]))
    by (vm_compute; reflexivity).
  split; [exact H|]. exact (final_emails_selection _ _ _ _ _ _ H).
Defined.

(** ** The crawl (lines 85-89) *)

(** X6: a record is crawled exactly when its 홈페이지 cell is truthy, once,
    with that cell and a budget of five pages, whether the crawl or the
    text extraction succeeds or not; nothing else is called. *)
Theorem gather_emails_trace c r tr :
  (gather_emails c r tr).2
  = if truthy (homepage r) then EvCrawl (homepage r) 5 :: tr else tr.
Proof.
  unfold gather_emails, mbind, M_bind, bind, try_except, call, lift, ret.
  destruct (truthy (homepage r)).
  - destruct (crawl_site_for_emails c (length tr) (homepage r) 5) as [[|e es]|[m|m]];
      simpl; try done; by destruct (Py.nonempty _).
  - simpl. by destruct (Py.nonempty _).
Qed.

(** X8: what is not an [Exception] passes through the guard of the crawl:
    a cancellation ends the body of the loop, and with it the run. *)
Theorem gather_emails_base_exception c r tr msg :
  truthy (homepage r) = true →
  crawl_site_for_emails c (length tr) (homepage r) 5 = Raise (BaseException msg) →
  gather_emails c r tr = (Raise (BaseException msg), EvCrawl (homepage r) 5 :: tr).
Proof.
  intros Hhp Hc. unfold gather_emails. rewrite Hhp.
  unfold mbind, M_bind, bind, try_except, call. by rewrite Hc.
Qed.

Lemma gather_emails_base_exception_witness :
  truthy (homepage Demo.acme) = true
  ∧ crawl_site_for_emails Demo.cancelled (length (@nil event)) (homepage Demo.acme) 5
    = Raise (BaseException "CancelledError")
  ∧ gather_emails Demo.cancelled Demo.acme []
    = (Raise (BaseException "CancelledError"), [EvCrawl (homepage Demo.acme) 5]).
Proof.
  assert (H1 : truthy (homepage Demo.acme) = true) by reflexivity.
  assert (H2 : crawl_site_for_emails Demo.cancelled (length (@nil event))
                 (homepage Demo.acme) 5 = Raise (BaseException "CancelledError"))
    by reflexivity.
  split; [exact H1|]. split; [exact H2|].
  exact (gather_emails_base_exception Demo.cancelled Demo.acme [] _ H1 H2).
Defined.

Example pipeline_cancelled :
  (pipeline Demo.cancelled Demo.cfg []).1 = Raise (BaseException "CancelledError").
Proof. by vm_compute. Qed.

Lemma gather_emails_crawl_caught_witness :
  truthy (homepage Demo.jane) = true
  ∧ crawl_site_for_emails Demo.crawl_down (length (@nil event)) (homepage Demo.jane) 5
    = Raise (Exception "crawl: timeout")
  ∧ gather_emails Demo.crawl_down Demo.jane []
    = (Ok ["info@acme.example"], [EvCrawl (homepage Demo.jane) 5]).
Proof.
  assert (H1 : truthy (homepage Demo.jane) = true) by reflexivity.
  assert (H2 : crawl_site_for_emails Demo.crawl_down (length (@nil event))
                 (homepage Demo.jane) 5 = Raise (Exception "crawl: timeout"))
    by reflexivity.
  split; [exact H1|]. split; [exact H2|].
  exact (gather_emails_crawl_caught Demo.crawl_down Demo.jane [] _ H1 H2).
Defined.

(** ** The listing source (lines 43-50) *)

(** X9: the sample file is read exactly when the selected listing source
    returns nothing; otherwise the rows are those of the source, and the
    source is asked once. *)
Theorem fetch_rows_sample_fallback c cfg tr df tr' :
  fetch_rows c cfg tr = (Ok df, tr') →
  (listed c cfg (length tr) = Ok df ∧ df ≠ []
   ∧ tr' = EvListing (industry cfg) (sido cfg) (sggu_or_none cfg) :: tr)
  ∨ (listed c cfg (length tr) = Ok []
     ∧ read_sample_seed c (S (length tr)) = Ok df
     ∧ tr' = EvSample :: EvListing (industry cfg) (sido cfg) (sggu_or_none cfg) :: tr).
Proof.
  unfold fetch_rows, mbind, M_bind. intros (rows & tr1 & Hl & Hk)%bind_Ok.
  unfold call in Hl. injection Hl as Hl <-. fold (listed c cfg (length tr)) in Hl.
  destruct rows as [|r rows].
  - right. unfold call in Hk. simpl in Hk. injection Hk as Hk <-. done.
  - left. apply ret_Ok in Hk as [<- <-]. done.
Qed.

Lemma fetch_rows_sample_fallback_witness :
  fetch_rows Demo.two_roles Demo.cfg []
    = (Ok [Demo.acme], [EvListing "의료기관" "서울특별시" (Some "강남구")])
  ∧ ((listed Demo.two_roles Demo.cfg (length (@nil event)) = Ok [Demo.acme]
      ∧ [Demo.acme] ≠ []
      ∧ [EvListing "의료기관" "서울특별시" (Some "강남구")]
        = [EvListing (industry Demo.cfg) (sido Demo.cfg) (sggu_or_none Demo.cfg)])
     ∨ (listed Demo.two_roles Demo.cfg (length (@nil event)) = Ok []
        ∧ read_sample_seed Demo.two_roles (S (length (@nil event))) = Ok [Demo.acme]
        ∧ [EvListing "의료기관" "서울특별시" (Some "강남구")]
          = [EvSample; EvListing (industry Demo.cfg) (sido Demo.cfg) (sggu_or_none Demo.cfg)])).
Proof.
  assert (H : fetch_rows Demo.two_roles Demo.cfg []
              = (Ok [Demo.acme], [EvListing "의료기관" "서울특별시" (Some "강남구")]))
    by (vm_compute; reflexivity).
  split; [exact H|]. exact (fetch_rows_sample_fallback _ _ _ _ _ H).
Defined.

(** ** The table (lines 78, 98 and 101-104) *)

Lemma loc_assign_other {A V B} (set : A → V → A) (p : A → B) (df : list A) (vals : list V) :
  (∀ r v, p (set r v) = p r) → p <$> loc_assign set df vals = p <$> df.
Proof.
  intros Hp. revert vals. induction df as [|r df IH]; intros [|v vals]; simpl; try done.
  by rewrite Hp, IH.
Qed.

Lemma loc_assign_drop {A V} (set : A → V → A) (df : list A) (vals : list V) (n : nat) :
  (length vals ≤ n)%nat → drop n (loc_assign set df vals) = drop n df.
Proof.
  revert vals n. induction df as [|r df IH]; intros [|v vals] [|n]; simpl; try done; [lia|].
  intros ?. apply IH. lia.
Qed.

Lemma head_length_le {A} (n : Z) (df : list A) :
  (0 ≤ n)%Z → (length (head n df) ≤ Z.to_nat n)%nat.
Proof.
  intros Hn. unfold head. rewrite (proj2 (Z.leb_le 0 n) Hn), length_take. lia.
Qed.

(** X10: the table lists the records of [df] in their order: the 회사명 and
    주소 columns are those of [df], and every row carries the region label
    and the industry of the side bar. *)
Theorem pipeline_rows_in_order c cfg tr out tr' :
  pipeline c cfg tr = (Ok out, tr') →
  ∃ df tr1, fetch_rows c cfg tr = (Ok df, tr1)
            ∧ out_company_name <$> out = company_name <$> df
            ∧ out_address <$> out = address <$> df
            ∧ Forall (λ o, out_region o = region_label cfg
                           ∧ out_industry o = industry cfg) out.
Proof.
  unfold pipeline. intros H. run_ok.
  match goal with E : (Ok _, _) = (Ok _, _) |- _ => injection E as <- <- end.
  eexists _, _. split; [eassumption|].
  rewrite <- !list_fmap_compose. split; [|split].
  - change (out_company_name ∘ to_out cfg _) with company_name.
    by rewrite !(loc_assign_other _ company_name).
  - change (out_address ∘ to_out cfg _) with address.
    by rewrite !(loc_assign_other _ address).
  - apply Forall_fmap, Forall_true. done.
Qed.

Lemma pipeline_rows_in_order_witness :
  ∃ out tr, pipeline Demo.fifty_one (Demo.settings true 50) [] = (Ok out, tr)
    ∧ ∃ df tr1, fetch_rows Demo.fifty_one (Demo.settings true 50) [] = (Ok df, tr1)
                ∧ out_company_name <$> out = company_name <$> df
                ∧ out_address <$> out = address <$> df
                ∧ Forall (λ o, out_region o = region_label (Demo.settings true 50)
                               ∧ out_industry o = industry (Demo.settings true 50)) out.
Proof.
  destruct (pipeline Demo.fifty_one (Demo.settings true 50) []) as [[out|e] tr] eqn:H.
  - exists out, tr. split; [reflexivity|].
    exact (pipeline_rows_in_order _ _ _ _ _ H).
  - vm_compute in H. discriminate.
Defined.

Ltac within_limit :=
  match goal with
  | E : length ?v = length (head _ _) |- (length ?v ≤ _)%nat =>
      rewrite E; by apply head_length_le
  end.

(** X11: past the limit the table keeps the 홈페이지 and 이메일 cells that
    the records came with. *)
Theorem pipeline_rows_past_limit c cfg tr out tr' :
  (0 ≤ limit cfg)%Z →
  pipeline c cfg tr = (Ok out, tr') →
  ∃ df tr1, fetch_rows c cfg tr = (Ok df, tr1)
            ∧ drop (Z.to_nat (limit cfg)) (out_homepage <$> out)
              = drop (Z.to_nat (limit cfg)) (homepage <$> df)
            ∧ drop (Z.to_nat (limit cfg)) (out_email <$> out)
              = drop (Z.to_nat (limit cfg)) (email <$> df).
Proof.
  intros Hlim. unfold pipeline. intros H. run_ok.
  match goal with E : (Ok _, _) = (Ok _, _) |- _ => injection E as <- <- end.
  repeat match goal with
    | E : for_each _ _ _ = (Ok _, _) |- _ => apply for_each_length in E
    end.
  eexists _, _. split; [eassumption|].
  rewrite <- !list_fmap_compose, <- !fmap_drop. split.
  - change (out_homepage ∘ to_out cfg _) with homepage.
    rewrite fmap_drop, (loc_assign_other _ homepage), <- fmap_drop by done.
    f_equal. apply loc_assign_drop. within_limit.
  - change (out_email ∘ to_out cfg _) with email.
    rewrite loc_assign_drop.
    + by rewrite fmap_drop, (loc_assign_other _ email), <- fmap_drop.
    + rewrite length_fmap. within_limit.
Qed.

Lemma pipeline_rows_past_limit_witness :
  (0 ≤ limit (Demo.settings true 50))%Z
  ∧ ∃ out tr, pipeline Demo.fifty_one (Demo.settings true 50) [] = (Ok out, tr)
    ∧ ∃ df tr1, fetch_rows Demo.fifty_one (Demo.settings true 50) [] = (Ok df, tr1)
                ∧ drop (Z.to_nat (limit (Demo.settings true 50))) (out_homepage <$> out)
                  = drop (Z.to_nat (limit (Demo.settings true 50))) (homepage <$> df)
                ∧ drop (Z.to_nat (limit (Demo.settings true 50))) (out_email <$> out)
                  = drop (Z.to_nat (limit (Demo.settings true 50))) (email <$> df).
Proof.
  assert (Hlim : (0 ≤ limit (Demo.settings true 50))%Z) by (simpl; lia).
  split; [exact Hlim|].
  destruct (pipeline Demo.fifty_one (Demo.settings true 50) []) as [[out|e] tr] eqn:H.
  - exists out, tr. split; [reflexivity|].
    exact (pipeline_rows_past_limit _ _ _ _ _ Hlim H).
  - vm_compute in H. discriminate.
Defined.

(** ** The outside calls of a run *)

Section CallBudget.
Context (f : event → bool).

Lemma calls_ret {A} (a : A) : calls_at_most f 0 (ret a).
Proof. intros tr res tr' [= <- <-]. by exists []. Qed.

Lemma calls_lift {A} (r : result A) : calls_at_most f 0 (lift r).
Proof. intros tr res tr' [= <- <-]. by exists []. Qed.

Lemma calls_call {A} (ev : event) (g : nat → result A) :
  calls_at_most f (if f ev then 1 else 0) (call ev g).
Proof.
  intros tr res tr' [= <- <-]. exists [ev]. split; [done|].
  unfold count_calls. simpl. by destruct (f ev).
Qed.

Lemma calls_weaken {A} (k k' : nat) (m : M A) :
  (k ≤ k')%nat → calls_at_most f k m → calls_at_most f k' m.
Proof.
  intros Hk Hm tr res tr' H. destruct (Hm _ _ _ H) as (new & -> & ?).
  exists new. split; [done|lia].
Qed.

Lemma calls_bind {A B} (k1 k2 : nat) (m : M A) (g : A → M B) :
  calls_at_most f k1 m → (∀ a, calls_at_most f k2 (g a)) →
  calls_at_most f (k1 + k2) (bind m g).
Proof.
  intros Hm Hg tr res tr' H. unfold bind in H.
  destruct (m tr) as [[a|e] tr1] eqn:Em; destruct (Hm _ _ _ Em) as (new1 & -> & ?).
  - destruct (Hg a _ _ _ H) as (new2 & -> & ?).
    exists (new2 ++ new1)%list. split; [by rewrite app_assoc|].
    unfold count_calls in *. rewrite List.filter_app, length_app. lia.
  - injection H as <- <-. exists new1. split; [done|lia].
Qed.

Lemma calls_try_except {A} (k1 k2 : nat) (m h : M A) :
  calls_at_most f k1 m → calls_at_most f k2 h →
  calls_at_most f (k1 + k2) (try_except m h).
Proof.
  intros Hm Hh tr res tr' H. unfold try_except in H.
  destruct (m tr) as [[a|[msg|msg]] tr1] eqn:Em; destruct (Hm _ _ _ Em) as (new1 & -> & ?).
  - injection H as <- <-. exists new1. split; [done|lia].
  - destruct (Hh _ _ _ H) as (new2 & -> & ?).
    exists (new2 ++ new1)%list. split; [by rewrite app_assoc|].
    unfold count_calls in *. rewrite List.filter_app, length_app. lia.
  - injection H as <- <-. exists new1. split; [done|lia].
Qed.

Lemma calls_for_each {A B} (k : nat) (body : A → M B) (l : list A) :
  (∀ x, calls_at_most f k (body x)) →
  calls_at_most f (k * length l) (for_each body l).
Proof.
  intros Hb. induction l as [|x l IH]; simpl.
  - eapply calls_weaken; [|apply calls_ret]. lia.
  - eapply calls_weaken; [|apply calls_bind; [apply Hb|]].
    2: { intros y. apply calls_bind; [apply IH|]. intros ys. apply calls_ret. }
    lia.
Qed.

End CallBudget.

Lemma calls_resolve_homepage c cfg r :
  calls_at_most is_search 1 (resolve_homepage c cfg r)
  ∧ calls_at_most is_crawl 0 (resolve_homepage c cfg r).
Proof.
  unfold resolve_homepage. destruct (negb _).
  - split.
    + apply (calls_bind _ 1 0); [apply (calls_call is_search (EvSearch _))|].
      intros. apply calls_ret.
    + apply (calls_bind _ 0 0); [apply (calls_call is_crawl (EvSearch _))|].
      intros. apply calls_ret.
  - split; [eapply calls_weaken; [|apply calls_ret]; lia|apply calls_ret].
Qed.

Lemma calls_gather_emails c r :
  calls_at_most is_search 0 (gather_emails c r)
  ∧ calls_at_most is_crawl 1 (gather_emails c r).
Proof.
  unfold gather_emails. split.
  - apply (calls_bind _ 0 0).
    + destruct (truthy _); [|apply calls_ret].
      apply (calls_try_except _ 0 0); [apply (calls_call is_search (EvCrawl _ _))|apply calls_ret].
    + intros es. destruct (_ && _); [apply calls_lift|apply calls_ret].
  - apply (calls_bind _ 1 0).
    + destruct (truthy _); [|eapply calls_weaken; [|apply calls_ret]; lia].
      apply (calls_try_except _ 1 0); [apply (calls_call is_crawl (EvCrawl _ _))|apply calls_ret].
    + intros es. destruct (_ && _); [apply calls_lift|apply calls_ret].
Qed.

Lemma calls_emails_entry c cfg r :
  calls_at_most is_search 0 (emails_entry c cfg r)
  ∧ calls_at_most is_crawl 1 (emails_entry c cfg r).
Proof.
  destruct (calls_gather_emails c r) as [Hs Hc].
  unfold emails_entry, final_emails. split.
  - apply (calls_bind _ 0 0); [|intros; apply calls_ret].
    apply (calls_bind _ 0 0); [done|intros; apply calls_ret].
  - apply (calls_bind _ 1 0); [|intros; apply calls_ret].
    apply (calls_bind _ 1 0); [done|intros; apply calls_ret].
Qed.

Lemma calls_fetch_rows c cfg (f : event → bool) :
  (∀ i s g, f (EvListing i s g) = false) → f EvSample = false →
  calls_at_most f 0 (fetch_rows c cfg).
Proof.
  intros Hl Hs. unfold fetch_rows. apply (calls_bind _ 0 0).
  - eapply calls_weaken; cycle 1; [apply calls_call|by rewrite Hl].
  - intros [|r rows]; [|apply calls_ret].
    eapply calls_weaken; cycle 1; [apply calls_call|by rewrite Hs].
Qed.

Lemma calls_pipeline c cfg (f : event → bool) (k1 k2 : nat) :
  (0 ≤ limit cfg)%Z →
  (∀ i s g, f (EvListing i s g) = false) → f EvSample = false →
  (∀ r, calls_at_most f k1 (resolve_homepage c cfg r)) →
  (∀ r, calls_at_most f k2 (emails_entry c cfg r)) →
  calls_at_most f ((k1 + k2) * Z.to_nat (limit cfg)) (pipeline c cfg).
Proof.
  intros Hlim Hl Hs H1 H2. unfold pipeline, mbind, M_bind.
  set (L := Z.to_nat (limit cfg)).
  apply (calls_weaken f (0 + (k1 * L + (0 + (k2 * L + (0 + (0 + 0))))))); [lia|].
  apply calls_bind; [by apply calls_fetch_rows|]. intros df.
  apply calls_bind.
  { eapply calls_weaken; cycle 1; [by apply calls_for_each|].
    apply Nat.mul_le_mono_l, head_length_le, Hlim. }
  intros hps. apply calls_bind; [apply calls_lift|]. intros df1.
  apply calls_bind.
  { eapply calls_weaken; cycle 1; [by apply calls_for_each|].
    apply Nat.mul_le_mono_l, head_length_le, Hlim. }
  intros es. apply calls_bind; [apply calls_lift|]. intros df2.
  apply calls_bind; [|intros; apply calls_ret].
  intros tr res tr' [= <- <-]. by exists [].
Qed.

(** X12: a run makes at most [limit] searches and at most [limit] crawls,
    whether it returns a table or ends with an exception, and however many
    records the listing source returns. *)
Theorem pipeline_call_budget c cfg tr res tr' :
  (0 ≤ limit cfg)%Z →
  pipeline c cfg tr = (res, tr') →
  ∃ new, tr' = (new ++ tr)%list
         ∧ (Z.of_nat (count_calls is_search new) ≤ limit cfg)%Z
         ∧ (Z.of_nat (count_calls is_crawl new) ≤ limit cfg)%Z.
Proof.
  intros Hlim H.
  assert (Hs : calls_at_most is_search ((1 + 0) * Z.to_nat (limit cfg)) (pipeline c cfg)).
  { apply calls_pipeline; try done; intros r;
      [apply calls_resolve_homepage|apply calls_emails_entry]. }
  assert (Hc : calls_at_most is_crawl ((0 + 1) * Z.to_nat (limit cfg)) (pipeline c cfg)).
  { apply calls_pipeline; try done; intros r;
      [apply calls_resolve_homepage|apply calls_emails_entry]. }
  destruct (Hs _ _ _ H) as (new & -> & ?). destruct (Hc _ _ _ H) as (new' & E & ?).
  apply app_inv_tail in E as <-. exists new. split; [done|]. lia.
Qed.

Lemma pipeline_call_budget_witness :
  (0 ≤ limit (Demo.settings true 50))%Z
  ∧ ∃ res tr', pipeline Demo.fifty_one (Demo.settings true 50) [] = (res, tr')
      ∧ ∃ new, tr' = (new ++ [])%list
               ∧ (Z.of_nat (count_calls is_search new) ≤ limit (Demo.settings true 50))%Z
               ∧ (Z.of_nat (count_calls is_crawl new) ≤ limit (Demo.settings true 50))%Z.
Proof.
  assert (Hlim : (0 ≤ limit (Demo.settings true 50))%Z) by (simpl; lia).
  split; [exact Hlim|].
  destruct (pipeline Demo.fifty_one (Demo.settings true 50) []) as [res tr'] eqn:H.
  exists res, tr'. split; [reflexivity|].
  exact (pipeline_call_budget _ _ _ _ _ Hlim H).
Defined.

Example pipeline_fifty_crawls :
  count_calls is_crawl (pipeline Demo.fifty_one (Demo.settings true 50) []).2 = 50%nat.
Proof. by vm_compute. Qed.

(** ** Runs that return *)

Lemma for_each_returns {A B} (body : A → M B) (l : list A) tr :
  (∀ x tr1, ∃ y tr2, body x tr1 = (Ok y, tr2)) →
  ∃ ys tr', for_each body l tr = (Ok ys, tr').
Proof.
  intros Hb. revert tr. induction l as [|x l IH]; intros tr; simpl.
  - by eexists _, _.
  - destruct (Hb x tr) as (y & tr1 & Hy). destruct (IH tr1) as (ys & tr2 & Hys).
    exists (y :: ys), tr2. unfold mbind, M_bind, bind. by rewrite Hy, Hys.
Qed.

Section Returns.
Context (c : collaborators) (cfg : config).

Hypothesis hira_ok :
  ∀ t s g, ∃ rows, fetch_hira_facilities c t s g = Ok rows ∧ writable rows.
Hypothesis localdata_ok :
  ∀ t s g, ∃ rows, fetch_localdata_business c t s g = Ok rows ∧ writable rows.
Hypothesis sample_ok : ∀ t, ∃ rows, read_sample_seed c t = Ok rows ∧ writable rows.
Hypothesis search_ok : ∀ t q, ∃ v, find_homepage_via_bing c t q = Ok v.
Hypothesis extract_ok : ∀ s, ∃ es, extract_emails_from_text c s = Ok es.
Hypothesis crawl_not_cancelled :
  ∀ t hp n msg, crawl_site_for_emails c t hp n ≠ Raise (BaseException msg).

Lemma fetch_rows_returns tr :
  ∃ df tr', fetch_rows c cfg tr = (Ok df, tr') ∧ writable df.
Proof.
  unfold fetch_rows, mbind, M_bind, bind, call.
  assert (∃ rows, listed c cfg (length tr) = Ok rows ∧ writable rows) as (rows & Hl & Hw).
  { unfold listed. destruct (String.eqb _ _); [apply hira_ok|apply localdata_ok]. }
  unfold listed in Hl. rewrite Hl. destruct rows as [|r rows].
  - destruct (sample_ok (S (length tr))) as (rows & Hs & Hw'). simpl. rewrite Hs.
    by eexists _, _.
  - by eexists _, _.
Qed.

Lemma resolve_homepage_returns r tr : ∃ hp tr', resolve_homepage c cfg r tr = (Ok hp, tr').
Proof.
  unfold resolve_homepage. destruct (negb _); [|by eexists _, _].
  destruct (search_ok (length tr) (search_query cfg r)) as [v Hv].
  unfold mbind, M_bind, bind, call. rewrite Hv. by eexists _, _.
Qed.

Lemma gather_emails_returns r tr : ∃ es tr', gather_emails c r tr = (Ok es, tr').
Proof.
  unfold gather_emails, mbind, M_bind.
  match goal with
  | |- ∃ _ _, bind ?m ?k tr = _ =>
      assert (Hk : ∀ es tr1, ∃ es' tr', k es tr1 = (Ok es', tr'));
      [|assert (Hm : ∃ es tr1, m tr = (Ok es, tr1))]
  end.
  - intros es tr1. simpl. destruct (_ && _); [|by eexists _, _].
    unfold lift. destruct (extract_ok (py_str (or_empty (notes r)))) as [es' ->].
    by eexists _, _.
  - destruct (truthy _); [|by eexists _, _]. unfold try_except, call.
    destruct (crawl_site_for_emails c (length tr) (homepage r) 5) as [es|[msg|msg]] eqn:Ec.
    + by eexists _, _.
    + by eexists _, _.
    + by apply crawl_not_cancelled in Ec.
  - destruct Hm as (es & tr1 & Hm). destruct (Hk es tr1) as (es' & tr' & Hk').
    exists es', tr'. apply bind_Ok. eauto.
Qed.

Lemma emails_entry_returns r tr : ∃ cell tr', emails_entry c cfg r tr = (Ok cell, tr').
Proof.
  destruct (gather_emails_returns r tr) as (es & tr' & Hg).
  eexists _, tr'. apply emails_entry_Ok. eexists. split; [|done].
  apply final_emails_Ok. eauto.
Qed.

(** X13: a run returns a table whenever the listing source, the sample
    file, the search and the text extraction do not raise, the crawl raises
    nothing but an [Exception], and the frame has no all-[nan] 홈페이지 or
    이메일 column: a crawl that fails, for any number of records, never ends
    the run. *)
Theorem pipeline_returns tr : ∃ out tr', pipeline c cfg tr = (Ok out, tr').
Proof.
  unfold pipeline, mbind, M_bind.
  destruct (fetch_rows_returns tr) as (df & tr1 & H1 & Hh & He).
  destruct (for_each_returns (resolve_homepage c cfg) (head (limit cfg) df) tr1
              resolve_homepage_returns) as (hps & tr2 & H2).
  destruct (for_each_returns (emails_entry c cfg)
              (head (limit cfg) (loc_assign set_homepage df hps)) tr2
              emails_entry_returns) as (cells & tr3 & H3).
  eexists _, tr3. apply bind_Ok. exists df, tr1. split; [done|].
  apply bind_Ok. exists hps, tr2. split; [done|].
  apply bind_Ok. exists (loc_assign set_homepage df hps), tr2.
  split; [apply loc_write_Ok; by rewrite Hh|].
  apply bind_Ok. exists cells, tr3. split; [done|].
  apply bind_Ok. eexists _, tr3. split.
  { apply loc_write_Ok. split; [|done].
    by rewrite (loc_assign_other _ email), He. }
  apply bind_Ok. eexists _, tr3. split; [reflexivity|]. by apply ret_Ok.
Qed.

End Returns.

Lemma pipeline_returns_witness :
  ∃ out tr', pipeline Demo.crawl_down Demo.cfg [] = (Ok out, tr').
Proof.
  apply (pipeline_returns Demo.crawl_down Demo.cfg).
  - intros. eexists. split; [reflexivity|]. by split.
  - intros. eexists. split; [reflexivity|]. by split.
  - intros. eexists. split; [reflexivity|]. by split.
  - intros. by eexists.
  - intros. by eexists.
  - intros. discriminate.
Defined.

(** A file whose 홈페이지 column is empty gives a [float64] column of [nan]:
    every home page resolves to the string [nan] without a search, and the
    write-back of line 78 raises. *)
Example pipeline_nan_column_raises :
  pipeline Demo.nan_column Demo.cfg []
  = (Raise (Exception "TypeError: Invalid value for dtype 'float64'"),
     [EvListing "의료기관" "서울특별시" (Some "강남구")]).
Proof. by vm_compute. Qed.

(** ** The column clean-up *)

Lemma clean_columns_unfold (df : frame) :
  clean_columns df
  = foldl ensure_column
      (rename_if_missing "주소" "addr" (rename_if_missing "회사명" "yadmNm" df))
      ["비고"; "회사명"; "주소"; "홈페이지"; "이메일"].
Proof. unfold clean_columns. cbn [foldl]. reflexivity. Qed.

Lemma DataFrame_wf (rows : list (gmap string pyval)) : frame_wf (DataFrame rows).
Proof.
  unfold frame_wf, DataFrame. simpl. apply Forall_forall. intros r Hr col Hcol.
  apply elem_of_union_list. exists (dom r). split; [|done].
  apply list_elem_of_fmap. eauto.
Qed.

Lemma frame_wf_lookup (df : frame) (r : gmap string pyval) (col : string) :
  frame_wf df → r ∈ records df → col ∉ columns df → r !! col = None.
Proof.
  intros Hwf Hr Hcol. unfold frame_wf in Hwf. rewrite Forall_forall in Hwf.
  apply not_elem_of_dom. intros ?. apply Hcol. by eapply Hwf.
Qed.

Section RenameStep.
Context (new old : string) (df : frame).

Lemma rename_if_missing_length :
  length (records (rename_if_missing new old df)) = length (records df).
Proof.
  unfold rename_if_missing, rename. destruct (_ && _); [|done].
  case_bool_decide; [|done]. simpl. apply length_fmap.
Qed.

Lemma rename_if_missing_fires :
  new ∉ columns df → old ∈ columns df →
  rename_if_missing new old df
  = {| columns := {[new]} ∪ (columns df ∖ {[old]});
       records := rename_key old new <$> records df |}.
Proof.
  intros Hn Ho. unfold rename_if_missing, rename.
  by rewrite !bool_decide_eq_true_2.
Qed.

Lemma rename_if_missing_idle :
  new ∈ columns df ∨ old ∉ columns df → rename_if_missing new old df = df.
Proof.
  intros H. unfold rename_if_missing. destruct H as [H|H].
  - by rewrite (bool_decide_eq_false_2 (new ∉ columns df)) by auto.
  - rewrite (bool_decide_eq_false_2 (old ∈ columns df)) by done.
    by rewrite andb_false_r.
Qed.

Lemma rename_if_missing_cases :
  rename_if_missing new old df = df
  ∨ ((new ∉ columns df) ∧ old ∈ columns df
     ∧ rename_if_missing new old df
       = {| columns := {[new]} ∪ (columns df ∖ {[old]});
            records := rename_key old new <$> records df |}).
Proof.
  destruct (decide (new ∈ columns df)); [left; apply rename_if_missing_idle; auto|].
  destruct (decide (old ∈ columns df)); [|left; apply rename_if_missing_idle; auto].
  right. split; [done|]. split; [done|]. by apply rename_if_missing_fires.
Qed.

Lemma rename_if_missing_elem_of (c : string) :
  c ≠ old → c ∈ columns df → c ∈ columns (rename_if_missing new old df).
Proof.
  intros Hc Hin. destruct rename_if_missing_cases as [->|(_ & _ & ->)]; [done|].
  simpl. set_solver.
Qed.

Lemma rename_if_missing_not_elem_of (c : string) :
  c ≠ new ∨ old ∉ columns df → c ∉ columns df →
  c ∉ columns (rename_if_missing new old df).
Proof.
  intros Hc Hin. destruct rename_if_missing_cases as [->|(_ & Ho & ->)]; [done|].
  simpl. destruct Hc as [Hc|Hc]; [set_solver|done].
Qed.

Lemma rename_if_missing_column_other (c : string) :
  c ≠ old → c ≠ new ∨ new ∈ columns df →
  column c (rename_if_missing new old df) = column c df.
Proof.
  intros Hco Hcn. destruct rename_if_missing_cases as [->|(Hn & _ & ->)]; [done|].
  destruct Hcn as [Hcn|Hcn]; [|done].
  unfold column. simpl. rewrite <- list_fmap_compose. apply list_fmap_ext.
  intros _ r _. simpl. unfold cell, rename_key. destruct (r !! old); [|done].
  by rewrite lookup_insert_ne, lookup_delete_ne.
Qed.

Lemma rename_if_missing_column_new :
  frame_wf df → old ≠ new → new ∉ columns df → old ∈ columns df →
  column new (rename_if_missing new old df) = column old df.
Proof.
  intros Hwf Hne Hn Ho. rewrite rename_if_missing_fires by done.
  unfold column. simpl. rewrite <- list_fmap_compose.
  apply Forall_fmap_ext, Forall_forall. intros r Hr. simpl.
  unfold cell, rename_key. destruct (r !! old) eqn:E.
  - by rewrite lookup_insert_eq.
  - by rewrite (frame_wf_lookup df r new).
Qed.

Lemma rename_if_missing_wf : frame_wf df → frame_wf (rename_if_missing new old df).
Proof.
  intros Hwf. destruct rename_if_missing_cases as [->|(_ & _ & ->)]; [done|].
  unfold frame_wf in *. simpl. apply Forall_fmap, Forall_forall. intros r Hr.
  rewrite Forall_forall in Hwf. specialize (Hwf r Hr). simpl.
  unfold rename_key. destruct (r !! old) eqn:E; [|].
  - rewrite dom_insert, dom_delete. set_solver.
  - apply not_elem_of_dom in E. set_solver.
Qed.

End RenameStep.

Section EnsureSteps.

Lemma ensure_column_columns (df : frame) (col : string) :
  columns (ensure_column df col) = {[col]} ∪ columns df.
Proof.
  unfold ensure_column. case_bool_decide as H; [done|]. set_solver.
Qed.

Lemma ensure_column_length (df : frame) (col : string) :
  length (records (ensure_column df col)) = length (records df).
Proof. unfold ensure_column. case_bool_decide; [apply length_fmap|done]. Qed.

Lemma ensure_column_idle (df : frame) (col : string) :
  col ∈ columns df → ensure_column df col = df.
Proof. intros H. unfold ensure_column. by rewrite bool_decide_eq_false_2 by auto. Qed.

Lemma ensure_column_column_other (df : frame) (col c : string) :
  c ≠ col ∨ col ∈ columns df → column c (ensure_column df col) = column c df.
Proof.
  intros H. destruct (decide (col ∈ columns df)) as [Hin|Hin].
  - by rewrite ensure_column_idle.
  - destruct H as [H|H]; [|done]. unfold ensure_column.
    rewrite bool_decide_eq_true_2 by done. unfold column. simpl.
    rewrite <- list_fmap_compose. apply list_fmap_ext. intros _ r _. simpl.
    unfold cell. by rewrite lookup_insert_ne.
Qed.

Lemma ensure_column_column_new (df : frame) (col : string) :
  col ∉ columns df →
  column col (ensure_column df col) = replicate (length (records df)) (VStr "").
Proof.
  intros H. unfold ensure_column. rewrite bool_decide_eq_true_2 by done.
  unfold column. simpl. rewrite <- list_fmap_compose.
  apply const_fmap. intros _ r _. unfold compose, cell. by rewrite lookup_insert_eq.
Qed.

Lemma foldl_ensure_columns (cols : list string) (df : frame) :
  columns (foldl ensure_column df cols) = list_to_set cols ∪ columns df.
Proof.
  revert df. induction cols as [|col cols IH]; intros df; simpl; [set_solver|].
  rewrite IH, ensure_column_columns. set_solver.
Qed.

Lemma foldl_ensure_length (cols : list string) (df : frame) :
  length (records (foldl ensure_column df cols)) = length (records df).
Proof.
  revert df. induction cols as [|col cols IH]; intros df; simpl; [done|].
  by rewrite IH, ensure_column_length.
Qed.

Lemma foldl_ensure_idle (cols : list string) (df : frame) :
  (∀ col, col ∈ cols → col ∈ columns df) → foldl ensure_column df cols = df.
Proof.
  revert df. induction cols as [|col cols IH]; intros df H; simpl; [done|].
  rewrite ensure_column_idle by (apply H; by left). apply IH.
  intros c Hc. apply H. by right.
Qed.

Lemma foldl_ensure_column_keep (cols : list string) (df : frame) (c : string) :
  c ∈ columns df → column c (foldl ensure_column df cols) = column c df.
Proof.
  revert df. induction cols as [|col cols IH]; intros df Hc; simpl; [done|].
  rewrite IH by (rewrite ensure_column_columns; set_solver).
  apply ensure_column_column_other. destruct (decide (c = col)) as [->|]; auto.
Qed.

Lemma foldl_ensure_column_fill (cols : list string) (df : frame) (c : string) :
  c ∉ columns df → c ∈ cols →
  column c (foldl ensure_column df cols) = replicate (length (records df)) (VStr "").
Proof.
  revert df. induction cols as [|col cols IH]; intros df Hc Hin; simpl.
  - by apply elem_of_nil in Hin.
  - destruct (decide (c = col)) as [->|Hne].
    + rewrite foldl_ensure_column_keep by (rewrite ensure_column_columns; set_solver).
      by apply ensure_column_column_new.
    + apply elem_of_cons in Hin as [?|Hin]; [done|].
      rewrite IH; [by rewrite ensure_column_length| |done].
      rewrite ensure_column_columns. set_solver.
Qed.

End EnsureSteps.

Lemma base_columns_not_source (col : string) :
  col ∈ base_columns → col ≠ "yadmNm" ∧ col ≠ "addr".
Proof.
  unfold base_columns. rewrite !elem_of_cons, elem_of_nil.
  intros [->|[->|[->|[->|[->|[]]]]]]; done.
Qed.

Lemma base_columns_ensured (col : string) :
  col ∈ base_columns ↔ col ∈ ["비고"; "회사명"; "주소"; "홈페이지"; "이메일"].
Proof. unfold base_columns. rewrite !elem_of_cons, !elem_of_nil. tauto. Qed.

Lemma clean_columns_has_base (df : frame) :
  Forall (λ col, col ∈ columns (clean_columns df)) base_columns.
Proof.
  rewrite clean_columns_unfold, foldl_ensure_columns. unfold base_columns.
  repeat constructor; set_solver.
Qed.

(** X14: after the clean-up the five columns that the loops read exist,
    whatever the listing source returned, and no record is added or lost. *)
Theorem clean_columns_guarantee (df : frame) :
  Forall (λ col, col ∈ columns (clean_columns df)) base_columns
  ∧ length (records (clean_columns df)) = length (records df).
Proof.
  split; [apply clean_columns_has_base|]. rewrite clean_columns_unfold.
  by rewrite foldl_ensure_length, !rename_if_missing_length.
Qed.

Lemma clean_columns_column_kept (df : frame) (col : string) :
  col ∈ base_columns → col ∈ columns df →
  column col (clean_columns df) = column col df.
Proof.
  intros Hb Hc. destruct (base_columns_not_source col Hb) as [Hy Ha].
  rewrite clean_columns_unfold.
  assert (H1 : col ∈ columns (rename_if_missing "회사명" "yadmNm" df))
    by by apply rename_if_missing_elem_of.
  rewrite foldl_ensure_column_keep by by apply rename_if_missing_elem_of.
  rewrite rename_if_missing_column_other; [|done|].
  - apply rename_if_missing_column_other; [done|].
    destruct (decide (col = "회사명")) as [->|]; auto.
  - destruct (decide (col = "주소")) as [->|]; auto.
Qed.

Lemma clean_columns_column_filled (df : frame) (col : string) :
  col ∈ base_columns → col ∉ columns df →
  (col = "회사명" → "yadmNm" ∉ columns df) →
  (col = "주소" → "addr" ∉ columns df) →
  column col (clean_columns df) = replicate (length (records df)) (VStr "").
Proof.
  intros Hb Hc Hy Ha. rewrite clean_columns_unfold.
  assert (H1 : col ∉ columns (rename_if_missing "회사명" "yadmNm" df)).
  { apply rename_if_missing_not_elem_of; [|done].
    destruct (decide (col = "회사명")); auto. }
  assert (H2 : col ∉ columns (rename_if_missing "주소" "addr"
                               (rename_if_missing "회사명" "yadmNm" df))).
  { apply rename_if_missing_not_elem_of; [|done].
    destruct (decide (col = "주소")) as [E|]; [|auto]. right.
    apply rename_if_missing_not_elem_of; [by left|auto]. }
  rewrite foldl_ensure_column_fill; [|done|by apply base_columns_ensured].
  by rewrite !rename_if_missing_length.
Qed.

(** X17: when the frame has no 회사명 column but a [yadmNm] column, the
    names are those of [yadmNm]; likewise 주소 is taken from [addr]. *)
Theorem clean_columns_renames (rows : list (gmap string pyval)) (new old : string) :
  (new, old) ∈ [("회사명", "yadmNm"); ("주소", "addr")] →
  new ∉ columns (DataFrame rows) → old ∈ columns (DataFrame rows) →
  column new (clean_columns (DataFrame rows)) = column old (DataFrame rows).
Proof.
  intros Hp Hn Ho. pose proof (DataFrame_wf rows) as Hwf. rewrite clean_columns_unfold.
  apply elem_of_cons in Hp as [[= -> ->]|Hp];
    [|apply elem_of_cons in Hp as [[= -> ->]|Hp]; [|by apply elem_of_nil in Hp]].
  - rewrite foldl_ensure_column_keep.
    + rewrite rename_if_missing_column_other by auto.
      by apply rename_if_missing_column_new.
    + apply rename_if_missing_elem_of; [done|].
      rewrite rename_if_missing_fires by done. simpl. set_solver.
  - assert (H1 : "주소" ∉ columns (rename_if_missing "회사명" "yadmNm" (DataFrame rows)))
      by (apply rename_if_missing_not_elem_of; auto).
    assert (H2 : "addr" ∈ columns (rename_if_missing "회사명" "yadmNm" (DataFrame rows)))
      by by apply rename_if_missing_elem_of.
    rewrite foldl_ensure_column_keep.
    + rewrite rename_if_missing_column_new; [|by apply rename_if_missing_wf|done..].
      by apply rename_if_missing_column_other; auto.
    + rewrite rename_if_missing_fires by done. simpl. set_solver.
Qed.

Lemma clean_columns_fixpoint (df : frame) :
  Forall (λ col, col ∈ columns df) base_columns → clean_columns df = df.
Proof.
  intros H. rewrite Forall_forall in H. rewrite clean_columns_unfold.
  rewrite !rename_if_missing_idle.
  - apply foldl_ensure_idle. intros col Hc. by apply H, base_columns_ensured.
  - left. apply H. unfold base_columns. set_solver.
  - left. rewrite rename_if_missing_idle; [|left]; apply H; unfold base_columns; set_solver.
Qed.

(** X18: cleaning a cleaned frame changes nothing. *)
Theorem clean_columns_idempotent (df : frame) :
  clean_columns (clean_columns df) = clean_columns df.
Proof. apply clean_columns_fixpoint, clean_columns_has_base. Qed.

(** X15: the clean-up never overwrites a column that is there: the column
    keeps all its cells, the [nan] of a record that lacks the key
    included. *)
Theorem clean_columns_keeps (df : frame) (col : string) :
  col ∈ base_columns → col ∈ columns df →
  column col (clean_columns df) = column col df.
Proof. apply clean_columns_column_kept. Qed.

(** X16: a column that is missing, and that no renaming supplies, is
    created with the empty string in every row. *)
Theorem clean_columns_fills (df : frame) (col : string) :
  col ∈ base_columns → col ∉ columns df →
  (col = "회사명" → "yadmNm" ∉ columns df) →
  (col = "주소" → "addr" ∉ columns df) →
  column col (clean_columns df) = replicate (length (records df)) (VStr "").
Proof. apply clean_columns_column_filled. Qed.

(** ** The clean-up and the first loop *)

Lemma fmap_eq_Forall2 {A B C} (f : A → C) (g : B → C) (l1 : list A) (l2 : list B) :
  f <$> l1 = g <$> l2 → Forall2 (λ a b, f a = g b) l1 l2.
Proof.
  revert l2. induction l1 as [|a l1 IH]; intros [|b l2]; simpl; intros E;
    try discriminate; [constructor|].
  injection E as ? ?. constructor; auto.
Qed.

Lemma resolve_homepage_nan_cell c cfg r tr :
  homepage r = VNaN → resolve_homepage c cfg r tr = (Ok (VStr "nan"), tr).
Proof.
  intros H. unfold resolve_homepage, existing_homepage. rewrite H. reflexivity.
Qed.

Lemma resolve_homepage_missing_key c cfg tr (r r' : gmap string pyval) :
  cell r' "홈페이지" = cell r "홈페이지" → r !! "홈페이지" = None →
  resolve_homepage c cfg (to_row r') tr = (Ok (VStr "nan"), tr).
Proof.
  intros Hcell Hnone. apply resolve_homepage_nan_cell.
  unfold to_row. cbn [homepage]. rewrite Hcell. unfold cell. by rewrite Hnone.
Qed.

Lemma column_eq_Forall2 (col : string) (df1 df2 : frame) :
  column col df1 = column col df2 →
  Forall2 (λ r1 r2, cell r1 col = cell r2 col) (records df1) (records df2).
Proof. unfold column. apply fmap_eq_Forall2. Qed.

Lemma column_elem_of (col : string) (df : frame) (r : gmap string pyval) :
  r ∈ records df → cell r col ∈ column col df.
Proof. intros Hr. unfold column. apply list_elem_of_fmap. eauto. Qed.

Lemma homepage_in_base : "홈페이지" ∈ base_columns.
Proof. unfold base_columns. rewrite !elem_of_cons. tauto. Qed.

(** X19: when some records of the batch have a 홈페이지 key and others do
    not, a record without the key gets the home page [nan]: its cell is the
    float [nan], which is truthy, so no search is made for it. *)
Theorem missing_homepage_key_is_nan (df : frame) :
  "홈페이지" ∈ columns df →
  Forall2 (λ r r', r !! "홈페이지" = None →
             ∀ c cfg tr, resolve_homepage c cfg (to_row r') tr = (Ok (VStr "nan"), tr))
          (records df) (records (clean_columns df)).
Proof.
  intros Hc. apply Forall2_flip.
  eapply Forall2_impl;
    [exact (column_eq_Forall2 _ _ _
              (clean_columns_column_kept df "홈페이지" homepage_in_base Hc))|].
  intros r' r Hcell. unfold flip. intros Hnone c cfg tr.
  by apply (resolve_homepage_missing_key c cfg tr r r').
Qed.

Lemma filter_all {A} (P : A → Prop) `{∀ x, Decision (P x)} (l : list A) :
  Forall P l → filter P l = l.
Proof.
  induction 1 as [|x l Hx Hl IH]; [done|]. by rewrite filter_cons_True, IH.
Qed.

Lemma existing_homepage_empty_cell (r : gmap string pyval) :
  cell r "홈페이지" = VStr "" → existing_homepage (to_row r) = "".
Proof.
  intros Hcell. unfold existing_homepage, to_row. cbn [homepage]. by rewrite Hcell.
Qed.

(** X20: when no record of the batch has a 홈페이지 key, the first loop
    searches once for every record it is given, in order. *)
Theorem missing_homepage_column_searches c cfg (df : frame) tr hps tr' :
  "홈페이지" ∉ columns df →
  for_each (resolve_homepage c cfg) (to_row <$> records (clean_columns df)) tr
    = (Ok hps, tr') →
  tr' = (reverse (EvSearch ∘ search_query cfg
                    <$> (to_row <$> records (clean_columns df))) ++ tr)%list.
Proof.
  intros Hc H. apply resolve_trace in H. rewrite H. do 3 f_equal.
  apply filter_all, Forall_fmap, Forall_forall. intros r Hr. unfold compose.
  apply existing_homepage_empty_cell.
  apply (column_elem_of "홈페이지") in Hr.
  rewrite (clean_columns_column_filled df "홈페이지" homepage_in_base Hc) in Hr by done.
  by eapply elem_of_replicate_inv.
Qed.

(** ** The clean-up on concrete batches *)

Example clean_columns_hira :
  to_row <$> records (clean_columns (DataFrame Demo.hira_records))
  = [ {| company_name := VStr "Acme 의원"; address := VStr "서울특별시 강남구";
         homepage := VStr "https://acme.example/"; email := VStr "";
         notes := VStr "" |};
      {| company_name := VStr "Beta 의원"; address := VStr "서울특별시 서초구";
         homepage := VNaN; email := VStr ""; notes := VStr "" |} ].
Proof. by vm_compute. Qed.

Lemma hira_has_homepage : "홈페이지" ∈ columns (DataFrame Demo.hira_records).
Proof. apply (bool_decide_unpack _). by vm_compute. Qed.

Lemma hira_has_yadmNm : "yadmNm" ∈ columns (DataFrame Demo.hira_records).
Proof. apply (bool_decide_unpack _). by vm_compute. Qed.

Lemma hira_lacks_company : "회사명" ∉ columns (DataFrame Demo.hira_records).
Proof. apply (bool_decide_unpack _). by vm_compute. Qed.

Lemma hira_lacks_notes : "비고" ∉ columns (DataFrame Demo.hira_records).
Proof. apply (bool_decide_unpack _). by vm_compute. Qed.

Lemma plain_lacks_homepage : "홈페이지" ∉ columns (DataFrame Demo.plain_records).
Proof. apply (bool_decide_unpack _). by vm_compute. Qed.

Lemma notes_in_base : "비고" ∈ base_columns.
Proof. unfold base_columns. rewrite !elem_of_cons. tauto. Qed.

Lemma clean_columns_keeps_witness :
  "홈페이지" ∈ base_columns
  ∧ "홈페이지" ∈ columns (DataFrame Demo.hira_records)
  ∧ column "홈페이지" (clean_columns (DataFrame Demo.hira_records))
    = column "홈페이지" (DataFrame Demo.hira_records).
Proof.
  split; [exact homepage_in_base|]. split; [exact hira_has_homepage|].
  exact (clean_columns_keeps _ _ homepage_in_base hira_has_homepage).
Defined.

Lemma clean_columns_fills_witness :
  "비고" ∈ base_columns
  ∧ ("비고" ∉ columns (DataFrame Demo.hira_records))
  ∧ column "비고" (clean_columns (DataFrame Demo.hira_records))
    = replicate (length (records (DataFrame Demo.hira_records))) (VStr "").
Proof.
  split; [exact notes_in_base|]. split; [exact hira_lacks_notes|].
  apply (clean_columns_fills _ _ notes_in_base hira_lacks_notes); intros [=].
Defined.

Lemma clean_columns_renames_witness :
  ("회사명", "yadmNm") ∈ [("회사명", "yadmNm"); ("주소", "addr")]
  ∧ ("회사명" ∉ columns (DataFrame Demo.hira_records))
  ∧ "yadmNm" ∈ columns (DataFrame Demo.hira_records)
  ∧ column "회사명" (clean_columns (DataFrame Demo.hira_records))
    = column "yadmNm" (DataFrame Demo.hira_records).
Proof.
  assert (H : ("회사명", "yadmNm") ∈ [("회사명", "yadmNm"); ("주소", "addr")])
    by (apply elem_of_cons; by left).
  split; [exact H|]. split; [exact hira_lacks_company|]. split; [exact hira_has_yadmNm|].
  exact (clean_columns_renames _ _ _ H hira_lacks_company hira_has_yadmNm).
Defined.

Lemma missing_homepage_key_is_nan_witness :
  "홈페이지" ∈ columns (DataFrame Demo.hira_records)
  ∧ Forall2 (λ r r', r !! "홈페이지" = None →
               ∀ c cfg tr, resolve_homepage c cfg (to_row r') tr = (Ok (VStr "nan"), tr))
            (records (DataFrame Demo.hira_records))
            (records (clean_columns (DataFrame Demo.hira_records))).
Proof.
  split; [exact hira_has_homepage|].
  exact (missing_homepage_key_is_nan _ hira_has_homepage).
Defined.

Lemma missing_homepage_column_searches_witness :
  ("홈페이지" ∉ columns (DataFrame Demo.plain_records))
  ∧ ∃ hps tr',
      for_each (resolve_homepage Demo.beta_found Demo.cfg)
        (to_row <$> records (clean_columns (DataFrame Demo.plain_records))) []
      = (Ok hps, tr')
      ∧ tr' = (reverse (EvSearch ∘ search_query Demo.cfg
                          <$> (to_row <$> records (clean_columns
                                                     (DataFrame Demo.plain_records))))
               ++ [])%list.
Proof.
  split; [exact plain_lacks_homepage|].
  destruct (for_each (resolve_homepage Demo.beta_found Demo.cfg)
              (to_row <$> records (clean_columns (DataFrame Demo.plain_records))) [])
    as [[hps|e] tr'] eqn:H.
  - exists hps, tr'. split; [reflexivity|].
    exact (missing_homepage_column_searches _ _ _ _ _ _ plain_lacks_homepage H).
  - vm_compute in H. discriminate.
Defined.

Example plain_records_searched :
  (for_each (resolve_homepage Demo.beta_found Demo.cfg)
     (to_row <$> records (clean_columns (DataFrame Demo.plain_records))) []).2
  = [EvSearch "Beta 공식 홈페이지 서울특별시 강남구";
     EvSearch "Acme 공식 홈페이지 서울특별시 강남구"].
Proof. by vm_compute. Qed.
